(** * Phaser.GameObjects.Graphics: the command buffer and its builders

    A shallow embedding of [src/gameobjects/graphics/Graphics.js].

    - JavaScript numbers are IEEE 754 binary64 values: [float] of the
      primitive-float library, with its own arithmetic and comparisons.
    - The command buffer is the flat JavaScript array the source pushes to:
      a [list value] holding an opcode followed by its operands.
    - A method [this.m(args)] is a function [m args : Graphics -> Graphics]
      returning the object after the call; a method that can throw returns a
      [completion], which keeps the object as it was when the exception left
      the method (mutations made before a throw persist in JavaScript). *)

From Stdlib Require Import ZArith Floats.
From stdpp Require Import base option list strings gmap.

Open Scope float_scope.
Open Scope Z_scope.
Open Scope list_scope.
Open Scope nat_scope.

(** ** Values stored in the command buffer *)

(** Modelled from the spec: the opcode enumeration of [./Commands] (section 6
    of the specification); the file with the numeric identifiers is not part
    of the sources. *)
Inductive Command : Set :=
| ARC | BEGIN_PATH | CLOSE_PATH | FILL_RECT | LINE_TO | MOVE_TO
| LINE_STYLE | FILL_STYLE | FILL_PATH | STROKE_PATH
| FILL_TRIANGLE | STROKE_TRIANGLE | LINE_FX_TO | MOVE_FX_TO
| SAVE | RESTORE | TRANSLATE | SCALE | ROTATE.

(** What a slot of the buffer can hold: an opcode, a number, a boolean, or
    [undefined] (an argument the caller left out and the method did not
    default). *)
Inductive value : Set :=
| VCmd (c : Command)
| VNum (n : float)
| VBool (b : bool)
| VUndefined.

Coercion VCmd : Command >-> value.
Coercion VNum : float >-> value.

(** An optional boolean argument pushed as it was received. *)
Definition of_opt_bool (b : option bool) : value :=
  match b with
  | Some b => VBool b
  | None => VUndefined
  end.

(** Modelled from the spec: [MATH_CONST.PI2] of [../../math/const], the
    double nearest to two pi ([Math.PI * 2]). *)
Definition PI2 : float := 0x1.921fb54442d18p+2%float.

(** ** The Graphics object *)

Record Graphics : Set := mkGraphics {
  x : float;                    (* Components.Transform *)
  y : float;
  commandBuffer : list value;
  defaultFillColor : float;
  defaultFillAlpha : float;
  defaultStrokeWidth : float;
  defaultStrokeColor : float;
  defaultStrokeAlpha : float;
  _lineWidth : float
}.

(** Field assignments. *)
Definition set_commandBuffer (b : list value) (g : Graphics) : Graphics :=
  mkGraphics (x g) (y g) b (defaultFillColor g) (defaultFillAlpha g)
    (defaultStrokeWidth g) (defaultStrokeColor g) (defaultStrokeAlpha g)
    (_lineWidth g).

Definition set_lineWidth (w : float) (g : Graphics) : Graphics :=
  mkGraphics (x g) (y g) (commandBuffer g) (defaultFillColor g)
    (defaultFillAlpha g) (defaultStrokeWidth g) (defaultStrokeColor g)
    (defaultStrokeAlpha g) w.

Definition set_defaultStroke (w c a : float) (g : Graphics) : Graphics :=
  mkGraphics (x g) (y g) (commandBuffer g) (defaultFillColor g)
    (defaultFillAlpha g) w c a (_lineWidth g).

Definition set_defaultFill (c a : float) (g : Graphics) : Graphics :=
  mkGraphics (x g) (y g) (commandBuffer g) c a (defaultStrokeWidth g)
    (defaultStrokeColor g) (defaultStrokeAlpha g) (_lineWidth g).

(** [this.commandBuffer.push(v1, ..., vn)] *)
Definition push (vs : list value) (g : Graphics) : Graphics :=
  set_commandBuffer (commandBuffer g ++ vs) g.

(** ** Style and path primitives *)

Definition lineStyle (lineWidth color : float) (alpha : option float)
    (g : Graphics) : Graphics :=
  let alpha := default 1%float alpha in
  let g := push [VCmd LINE_STYLE; VNum lineWidth; VNum color; VNum alpha] g in
  set_lineWidth lineWidth g.

Definition fillStyle (color : float) (alpha : option float)
    (g : Graphics) : Graphics :=
  let alpha := default 1%float alpha in
  push [VCmd FILL_STYLE; VNum color; VNum alpha] g.

Definition beginPath : Graphics -> Graphics := push [VCmd BEGIN_PATH].
Definition closePath : Graphics -> Graphics := push [VCmd CLOSE_PATH].
Definition fillPath : Graphics -> Graphics := push [VCmd FILL_PATH].
Definition strokePath : Graphics -> Graphics := push [VCmd STROKE_PATH].

Definition lineTo (x y : float) : Graphics -> Graphics :=
  push [VCmd LINE_TO; VNum x; VNum y].

Definition moveTo (x y : float) : Graphics -> Graphics :=
  push [VCmd MOVE_TO; VNum x; VNum y].

Definition lineFxTo (x y width rgb : float) : Graphics -> Graphics :=
  push [VCmd LINE_FX_TO; VNum x; VNum y; VNum width; VNum rgb; VNum 1%float].

Definition moveFxTo (x y width rgb : float) : Graphics -> Graphics :=
  push [VCmd MOVE_FX_TO; VNum x; VNum y; VNum width; VNum rgb; VNum 1%float].

Definition arc (x y radius startAngle endAngle : float)
    (anticlockwise : option bool) : Graphics -> Graphics :=
  push [VCmd ARC; VNum x; VNum y; VNum radius; VNum startAngle;
        VNum endAngle; of_opt_bool anticlockwise].

(** ** Circles *)

Definition fillCircle (x y radius : float) (g : Graphics) : Graphics :=
  let g := beginPath g in
  let g := arc x y radius 0%float PI2 None g in
  fillPath g.

Definition strokeCircle (x y radius : float) (g : Graphics) : Graphics :=
  let g := beginPath g in
  let g := arc x y radius 0%float PI2 None g in
  strokePath g.

(** ** Geometry objects read by the [...Shape] overloads *)

Module Circle.
Record t : Set := mk { x : float; y : float; radius : float }.
End Circle.

Module Rectangle.
Record t : Set := mk { x : float; y : float; width : float; height : float }.
End Rectangle.

Module Point.
Record t : Set := mk { x : float; y : float }.
End Point.

Module Triangle.
Record t : Set :=
  mk { x1 : float; y1 : float; x2 : float; y2 : float; x3 : float; y3 : float }.
End Triangle.

Module Line.
Record t : Set := mk { x1 : float; y1 : float; x2 : float; y2 : float }.
End Line.

Definition fillCircleShape (circle : Circle.t) : Graphics -> Graphics :=
  fillCircle (Circle.x circle) (Circle.y circle) (Circle.radius circle).

Definition strokeCircleShape (circle : Circle.t) : Graphics -> Graphics :=
  strokeCircle (Circle.x circle) (Circle.y circle) (Circle.radius circle).

(** ** Rectangles *)

Definition fillRect (x y width height : float) : Graphics -> Graphics :=
  push [VCmd FILL_RECT; VNum x; VNum y; VNum width; VNum height].

Definition strokeRect (x y width height : float) (g : Graphics) : Graphics :=
  let lineWidthHalf := (_lineWidth g / 2)%float in
  let minx := (x - lineWidthHalf)%float in
  let maxx := (x + lineWidthHalf)%float in
  let g := beginPath g in
  let g := moveTo x y g in
  let g := lineTo x (y + height)%float g in
  let g := strokePath g in
  let g := beginPath g in
  let g := moveTo (x + width)%float y g in
  let g := lineTo (x + width)%float (y + height)%float g in
  let g := strokePath g in
  let g := beginPath g in
  let g := moveTo minx y g in
  let g := lineTo (maxx + width)%float y g in
  let g := strokePath g in
  let g := beginPath g in
  let g := moveTo minx (y + height)%float g in
  let g := lineTo (maxx + width)%float (y + height)%float g in
  strokePath g.

Definition fillRectShape (rect : Rectangle.t) : Graphics -> Graphics :=
  fillRect (Rectangle.x rect) (Rectangle.y rect) (Rectangle.width rect)
    (Rectangle.height rect).

Definition strokeRectShape (rect : Rectangle.t) : Graphics -> Graphics :=
  strokeRect (Rectangle.x rect) (Rectangle.y rect) (Rectangle.width rect)
    (Rectangle.height rect).

(** ** Points *)

(** [!size] for a number: [0], [-0] and [NaN] are falsy. *)
Definition js_not (size : float) : bool := is_zero size || is_nan size.

Definition fillPoint (x y : float) (size : option float) : Graphics -> Graphics :=
  match size with
  | Some size =>
      if js_not size || (size <? 1)%float
      then
        let size := 1%float in
        push [VCmd FILL_RECT; VNum x; VNum y; VNum size; VNum size]
      else
        let x := (x - size / 2)%float in
        let y := (y - size / 2)%float in
        push [VCmd FILL_RECT; VNum x; VNum y; VNum size; VNum size]
  | None =>
      (* [!undefined] holds *)
      let size := 1%float in
      push [VCmd FILL_RECT; VNum x; VNum y; VNum size; VNum size]
  end.

Definition fillPointShape (point : Point.t) (size : option float)
    : Graphics -> Graphics :=
  fillPoint (Point.x point) (Point.y point) size.

(** ** Triangles and lines *)

Definition fillTriangle (x0 y0 x1 y1 x2 y2 : float) : Graphics -> Graphics :=
  push [VCmd FILL_TRIANGLE; VNum x0; VNum y0; VNum x1; VNum y1; VNum x2; VNum y2].

Definition strokeTriangle (x0 y0 x1 y1 x2 y2 : float) : Graphics -> Graphics :=
  push [VCmd STROKE_TRIANGLE; VNum x0; VNum y0; VNum x1; VNum y1; VNum x2; VNum y2].

Definition fillTriangleShape (triangle : Triangle.t) : Graphics -> Graphics :=
  fillTriangle (Triangle.x1 triangle) (Triangle.y1 triangle)
    (Triangle.x2 triangle) (Triangle.y2 triangle)
    (Triangle.x3 triangle) (Triangle.y3 triangle).

Definition strokeTriangleShape (triangle : Triangle.t) : Graphics -> Graphics :=
  strokeTriangle (Triangle.x1 triangle) (Triangle.y1 triangle)
    (Triangle.x2 triangle) (Triangle.y2 triangle)
    (Triangle.x3 triangle) (Triangle.y3 triangle).

Definition lineBetween (x1 y1 x2 y2 : float) (g : Graphics) : Graphics :=
  let g := beginPath g in
  let g := moveTo x1 y1 g in
  let g := lineTo x2 y2 g in
  strokePath g.

Definition strokeLineShape (line : Line.t) : Graphics -> Graphics :=
  lineBetween (Line.x1 line) (Line.y1 line) (Line.x2 line) (Line.y2 line).

(** ** Exceptions *)

Inductive exn : Set :=
| TypeError (property : string)
    (* "Cannot read property '<property>' of undefined" *)
| ResourceError (reason : string)
    (* raised by the texture registry while a surface is created *)
| EmptyGeometry.
    (* the error the specification asks point paths to raise on an empty
       sequence; no path of Graphics.js raises it *)

(** How a call ends: normally, or by an exception; either way with the state
    the call left behind. *)
Inductive completion (A : Type) : Type :=
| Normal (a : A)
| Throw (e : exn) (a : A).
Arguments Normal {A} a.
Arguments Throw {A} e a.

Definition state_of {A} (r : completion A) : A :=
  match r with
  | Normal a => a
  | Throw _ a => a
  end.

Definition and_then {A} (r : completion A) (k : A -> completion A)
    : completion A :=
  match r with
  | Normal a => k a
  | Throw e a => Throw e a
  end.

Notation "a <- r ;; k" := (and_then r (fun a => k))
  (at level 100, r at next level, right associativity).

(** ** Point paths *)

(** [points[i]] followed by a property read: an index outside the array
    yields [undefined], and reading [.x] of it throws. *)
Definition point_at {A} (points : list Point.t) (i : nat) (s : A)
    (k : Point.t -> completion A) : completion A :=
  match points !! i with
  | Some p => k p
  | None => Throw (TypeError "x") s
  end.

(** The body of [for (var i = 1; i < endIndex; i++)], run for the [n]
    iterations left, the next one at index [i]. *)
Fixpoint lineTo_each (points : list Point.t) (n i : nat) (g : Graphics)
    : completion Graphics :=
  match n with
  | O => Normal g
  | S n' =>
      point_at points i g (fun p =>
        lineTo_each points n' (S i) (lineTo (Point.x p) (Point.y p) g))
  end.

(** The iterations of the loop: the indices [1 <= i < endIndex]. *)
Definition iterations (endIndex : Z) : nat := Z.to_nat (endIndex - 1).

Definition strokePoints (points : list Point.t) (autoClose : option bool)
    (endIndex : option Z) (g : Graphics) : completion Graphics :=
  let autoClose := default false autoClose in
  let endIndex := default (Z.of_nat (length points)) endIndex in
  let g := beginPath g in
  point_at points 0 g (fun first =>
    let g := moveTo (Point.x first) (Point.y first) g in
    g <- lineTo_each points (iterations endIndex) 1 g ;;
    g <- (if autoClose
          then point_at points 0 g (fun first =>
                 Normal (lineTo (Point.x first) (Point.y first) g))
          else Normal g) ;;
    Normal (strokePath g)).

Definition fillPoints (points : list Point.t) (autoClose : option bool)
    (endIndex : option Z) (g : Graphics) : completion Graphics :=
  let autoClose := default false autoClose in
  let endIndex := default (Z.of_nat (length points)) endIndex in
  let g := beginPath g in
  point_at points 0 g (fun first =>
    let g := moveTo (Point.x first) (Point.y first) g in
    g <- lineTo_each points (iterations endIndex) 1 g ;;
    g <- (if autoClose
          then point_at points 0 g (fun first =>
                 Normal (lineTo (Point.x first) (Point.y first) g))
          else Normal g) ;;
    Normal (fillPath g)).

(** ** Arcs, slices and the transform stack *)

Definition slice (x y radius startAngle endAngle : float)
    (anticlockwise : option bool) (g : Graphics) : Graphics :=
  let anticlockwise := default false anticlockwise in
  let g := push [VCmd BEGIN_PATH] g in
  let g := push [VCmd MOVE_TO; VNum x; VNum y] g in
  let g := push [VCmd ARC; VNum x; VNum y; VNum radius; VNum startAngle;
                 VNum endAngle; VBool anticlockwise] g in
  push [VCmd CLOSE_PATH] g.

Definition save : Graphics -> Graphics := push [VCmd SAVE].
Definition restore : Graphics -> Graphics := push [VCmd RESTORE].

Definition translate (x y : float) : Graphics -> Graphics :=
  push [VCmd TRANSLATE; VNum x; VNum y].

Definition scale (x y : float) : Graphics -> Graphics :=
  push [VCmd SCALE; VNum x; VNum y].

Definition rotate (radians : float) : Graphics -> Graphics :=
  push [VCmd ROTATE; VNum radians].

(** ** Clearing and destruction *)

(** [this.commandBuffer.length = 0] *)
Definition truncate : Graphics -> Graphics := set_commandBuffer [].

Definition clear (g : Graphics) : Graphics :=
  let g := truncate g in
  let g :=
    if (-1 <? defaultFillColor g)%float
    then fillStyle (defaultFillColor g) (Some (defaultFillAlpha g)) g
    else g in
  if (-1 <? defaultStrokeColor g)%float
  then lineStyle (defaultStrokeWidth g) (defaultStrokeColor g)
         (Some (defaultStrokeAlpha g)) g
  else g.

(** [this.commandBuffer = []] *)
Definition preDestroy : Graphics -> Graphics := set_commandBuffer [].

(** ** Construction *)

Module GraphicsLineStyle.
Record t : Set :=
  mk { width : option float; color : option float; alpha : option float }.
End GraphicsLineStyle.

Module GraphicsFillStyle.
Record t : Set := mk { color : option float; alpha : option float }.
End GraphicsFillStyle.

Module GraphicsOptions.
Record t : Set := mk {
  x : option float;
  y : option float;
  lineStyle : option GraphicsLineStyle.t;
  fillStyle : option GraphicsFillStyle.t
}.
End GraphicsOptions.

(** Modelled from the spec: [GetValue] of [../../utils/object/GetValue], the
    accessor "reading nested optional keys with defaults": the value under
    the key when the key is there, the default otherwise. A nested key
    [a.b] is the composition of the two reads. *)
Definition GetValue {A} (source : option A) (defaultValue : A) : A :=
  default defaultValue source.

Definition setDefaultStyles (options : GraphicsOptions.t) (g : Graphics)
    : Graphics :=
  let g :=
    match GraphicsOptions.lineStyle options with
    | Some ls =>
        let g :=
          set_defaultStroke
            (GetValue (GraphicsLineStyle.width ls) 1%float)
            (GetValue (GraphicsLineStyle.color ls) 0xffffff%float)
            (GetValue (GraphicsLineStyle.alpha ls) 1%float) g in
        lineStyle (defaultStrokeWidth g) (defaultStrokeColor g)
          (Some (defaultStrokeAlpha g)) g
    | None => g
    end in
  match GraphicsOptions.fillStyle options with
  | Some fs =>
      let g :=
        set_defaultFill
          (GetValue (GraphicsFillStyle.color fs) 0xffffff%float)
          (GetValue (GraphicsFillStyle.alpha fs) 1%float) g in
      fillStyle (defaultFillColor g) (Some (defaultFillAlpha g)) g
  | None => g
  end.

(** [new Graphics(scene, options)]: the fields as the constructor
    initialises them, then [setDefaultStyles]. *)
Definition Graphics_new (options : GraphicsOptions.t) : Graphics :=
  let x := GetValue (GraphicsOptions.x options) 0%float in
  let y := GetValue (GraphicsOptions.y options) 0%float in
  let g :=
    {| x := x; y := y;
       commandBuffer := [];
       defaultFillColor := (-1)%float;
       defaultFillAlpha := 1%float;
       defaultStrokeWidth := 1%float;
       defaultStrokeColor := (-1)%float;
       defaultStrokeAlpha := 1%float;
       _lineWidth := 1.0%float |} in
  setDefaultStyles options g.

(** ** Instructions

    The buffer read the way a renderer walks it: an opcode, then as many
    operands as the opcode takes. *)

Record Instruction : Set := mkInstruction {
  opcode : Command;
  operands : list value
}.

(** Modelled from the spec: the operand count of each opcode (the table of
    section 6). *)
Definition arity (c : Command) : nat :=
  match c with
  | BEGIN_PATH | CLOSE_PATH | FILL_PATH | STROKE_PATH | SAVE | RESTORE => 0
  | ROTATE => 1
  | FILL_STYLE | LINE_TO | MOVE_TO | TRANSLATE | SCALE => 2
  | LINE_STYLE => 3
  | FILL_RECT => 4
  | LINE_FX_TO | MOVE_FX_TO => 5
  | ARC | FILL_TRIANGLE | STROKE_TRIANGLE => 6
  end.

Definition well_formed (i : Instruction) : Prop :=
  length (operands i) = arity (opcode i).

Definition encode (i : Instruction) : list value :=
  VCmd (opcode i) :: operands i.

(** The flat layout of a sequence of instructions. *)
Definition flatten (ins : list Instruction) : list value :=
  concat (map encode ins).

(** Modelled from the spec: reading the flat layout back as a renderer does,
    an opcode and then its operands; [fuel] bounds the number of
    instructions. *)
Fixpoint decode (fuel : nat) (b : list value) : option (list Instruction) :=
  match b with
  | [] => Some []
  | VCmd c :: rest =>
      match fuel with
      | O => None
      | S fuel =>
          if arity c <=? length rest
          then
            match decode fuel (drop (arity c) rest) with
            | Some ins => Some (mkInstruction c (take (arity c) rest) :: ins)
            | None => None
            end
          else None
      end
  | _ :: _ => None
  end.

Definition instructions (b : list value) : option (list Instruction) :=
  decode (length b) b.

Definition iBEGIN_PATH : Instruction := mkInstruction BEGIN_PATH [].
Definition iFILL_PATH : Instruction := mkInstruction FILL_PATH [].
Definition iSTROKE_PATH : Instruction := mkInstruction STROKE_PATH [].

Definition iMOVE_TO (x y : float) : Instruction :=
  mkInstruction MOVE_TO [VNum x; VNum y].

Definition iLINE_TO (x y : float) : Instruction :=
  mkInstruction LINE_TO [VNum x; VNum y].

Definition iARC (x y radius startAngle endAngle : float) (anticlockwise : value)
    : Instruction :=
  mkInstruction ARC
    [VNum x; VNum y; VNum radius; VNum startAngle; VNum endAngle; anticlockwise].


Definition iFILL_STYLE (color alpha : float) : Instruction :=
  mkInstruction FILL_STYLE [VNum color; VNum alpha].

Definition iLINE_STYLE (width color alpha : float) : Instruction :=
  mkInstruction LINE_STYLE [VNum width; VNum color; VNum alpha].

(** ** Collaborators outside the file

    The ellipse helper, the canvas renderer mixed into the class, the texture
    registry and the capture camera live in other files. Their behaviour is
    a parameter of everything below. *)

Module Ellipse.
Record t : Set := mk { x : float; y : float; width : float; height : float }.
End Ellipse.

(** Modelled from the spec: the viewport and scroll fields of
    [Cameras.Scene2D.Camera] that a capture overwrites. *)
Record Camera : Set := mkCamera {
  cam_x : float; cam_y : float; cam_width : float; cam_height : float;
  scrollX : float; scrollY : float
}.

Definition setViewport (x y width height : float) (c : Camera) : Camera :=
  mkCamera x y width height (scrollX c) (scrollY c).

Definition set_scroll (sx sy : float) (c : Camera) : Camera :=
  mkCamera (cam_x c) (cam_y c) (cam_width c) (cam_height c) sx sy.

(** [Graphics.TargetCamera = new Camera(0, 0, 0, 0)] *)
Definition TargetCamera_init : Camera :=
  mkCamera 0%float 0%float 0%float 0%float 0%float 0%float.

(** What a texture's [getSourceImage()] is an instance of. *)
Inductive SourceImage : Set :=
| HTMLCanvasElement (canvas : nat)
| HTMLImageElement.

(** The first argument of [generateTexture]. *)
Inductive TextureKey : Set :=
| KeyString (key : string)
| KeyCanvas (canvas : nat)
| KeyOther.

(** The collaborators as an interface. *)
Class Collaborators : Type := {
  (** the raster of a canvas, and a GPU texture handle *)
  Pixels : Type;
  GLTexture : Type;
  (** [Ellipse.getPoints(smoothness)] *)
  getPoints : Ellipse.t -> float -> list Point.t;
  (** [renderCanvas] of [./GraphicsRender]: one replay of the drawable's
      buffer through the given camera into a 2-D context; it reads the
      drawable (the specification's read-only sequence) and writes the
      raster *)
  renderCanvas : Graphics -> Camera -> Pixels -> Pixels;
  (** [renderer.canvasToTexture(canvas, glTexture)] *)
  canvasToTexture : Pixels -> option GLTexture -> GLTexture;
  (** the canvas pool behind [textures.createCanvas]: a fresh canvas element
      with its raster, or nothing when the surface cannot be allocated *)
  CanvasPool_create : float -> float -> option (nat * Pixels)
}.

Record Texture {env : Collaborators} : Type := mkTexture {
  sourceImage : SourceImage;
  glTexture : option GLTexture
}.

Arguments mkTexture {_} _ _.

(** Everything a capture reads or writes besides the drawable. *)
Record World {env : Collaborators} : Type := mkWorld {
  TargetCamera : Camera;
  config_width : float;
  config_height : float;
  renderer_gl : bool;
  textures : gmap string Texture;
  canvases : gmap nat Pixels
}.

Arguments mkWorld {_} _ _ _ _ _ _.

Definition set_TargetCamera {env : Collaborators}
    (c : Camera) (w : World) : World :=
  mkWorld c (config_width w) (config_height w) (renderer_gl w)
    (textures w) (canvases w).

Definition set_textures {env : Collaborators}
    (t : gmap string Texture) (w : World) : World :=
  mkWorld (TargetCamera w) (config_width w) (config_height w)
    (renderer_gl w) t (canvases w).

Definition set_canvases {env : Collaborators}
    (c : gmap nat Pixels) (w : World) : World :=
  mkWorld (TargetCamera w) (config_width w) (config_height w)
    (renderer_gl w) (textures w) c.

(** Modelled from the spec: [textures.createCanvas(key, width, height)],
    "create new canvas-backed surface of given size"; a failure of the
    registry surfaces as an exception. *)
Definition createCanvas {env : Collaborators}
    (key : string) (width height : float) (w : World)
    : exn + (Texture * World) :=
  match CanvasPool_create width height with
  | Some (canvas, px) =>
      let texture := mkTexture (HTMLCanvasElement canvas) None in
      inr (texture,
           set_canvases (<[canvas := px]> (canvases w))
             (set_textures (<[key := texture]> (textures w)) w))
  | None => inl (ResourceError "createCanvas")
  end.

(** [src instanceof HTMLCanvasElement ? src.getContext('2d') : undefined] *)
Definition context_of (src : SourceImage) : option nat :=
  match src with
  | HTMLCanvasElement canvas => Some canvas
  | HTMLImageElement => None
  end.

(** The first half of [generateTexture]: the texture (by its key in the
    registry) and the context the capture draws to, when there are any. *)
Definition resolve_target {env : Collaborators}
    (key : TextureKey) (width height : float)
    (w : World) : exn + (option (string * Texture) * option nat * World) :=
  match key with
  | KeyString k =>
      match textures w !! k with
      | Some texture =>
          inr (Some (k, texture), context_of (sourceImage texture), w)
      | None =>
          match createCanvas k width height w with
          | inr (texture, w) =>
              inr (Some (k, texture), context_of (sourceImage texture), w)
          | inl e => inl e
          end
      end
  | KeyCanvas canvas => inr (None, Some canvas, w)
  | KeyOther => inr (None, None, w)
  end.

(** The second half: one replay into the context, then the upload. *)
Definition capture {env : Collaborators}
    (g : Graphics) (texture : option (string * Texture))
    (ctx : option nat) (w : World) : World :=
  match ctx with
  | Some canvas =>
      let w :=
        set_canvases
          (alter (renderCanvas g (TargetCamera w)) canvas (canvases w)) w in
      match renderer_gl w, texture, canvases w !! canvas with
      | true, Some (k, t), Some px =>
          let t := mkTexture (sourceImage t)
                     (Some (canvasToTexture px (glTexture t))) in
          set_textures (<[k := t]> (textures w)) w
      | _, _, _ => w
      end
  | None => w
  end.

Definition generateTexture {env : Collaborators}
    (key : TextureKey) (width height : option float)
    (s : World * Graphics) : completion (World * Graphics) :=
  let '(w, g) := s in
  let width := default (config_width w) width in
  let height := default (config_height w) height in
  let w :=
    set_TargetCamera
      (set_scroll (x g) (y g)
         (setViewport 0%float 0%float width height (TargetCamera w))) w in
  match resolve_target key width height w with
  | inr (texture, ctx, w) => Normal (capture g texture ctx w, g)
  | inl e => Throw e (w, g)
  end.

(** *** Ellipses *)

Definition strokeEllipseShape {env : Collaborators}
    (ellipse : Ellipse.t) (smoothness : option float)
    : Graphics -> completion Graphics :=
  let smoothness := default 32%float smoothness in
  let points := getPoints ellipse smoothness in
  strokePoints points (Some true) None.

Definition strokeEllipse {env : Collaborators}
    (x y width height : float) (smoothness : option float)
    : Graphics -> completion Graphics :=
  let smoothness := default 32%float smoothness in
  let ellipse := Ellipse.mk x y width height in
  let points := getPoints ellipse smoothness in
  strokePoints points (Some true) None.

Definition fillEllipseShape {env : Collaborators}
    (ellipse : Ellipse.t) (smoothness : option float)
    : Graphics -> completion Graphics :=
  let smoothness := default 32%float smoothness in
  let points := getPoints ellipse smoothness in
  fillPoints points (Some true) None.

Definition fillEllipse {env : Collaborators}
    (x y width height : float) (smoothness : option float)
    : Graphics -> completion Graphics :=
  let smoothness := default 32%float smoothness in
  let ellipse := Ellipse.mk x y width height in
  let points := getPoints ellipse smoothness in
  fillPoints points (Some true) None.

(** *** The public operations, as data *)

Inductive call : Type :=
| Call_setDefaultStyles (options : GraphicsOptions.t)
| Call_lineStyle (lineWidth color : float) (alpha : option float)
| Call_fillStyle (color : float) (alpha : option float)
| Call_beginPath
| Call_closePath
| Call_fillPath
| Call_strokePath
| Call_fillCircleShape (circle : Circle.t)
| Call_strokeCircleShape (circle : Circle.t)
| Call_fillCircle (x y radius : float)
| Call_strokeCircle (x y radius : float)
| Call_fillRectShape (rect : Rectangle.t)
| Call_strokeRectShape (rect : Rectangle.t)
| Call_fillRect (x y width height : float)
| Call_strokeRect (x y width height : float)
| Call_fillPointShape (point : Point.t) (size : option float)
| Call_fillPoint (x y : float) (size : option float)
| Call_fillTriangleShape (triangle : Triangle.t)
| Call_strokeTriangleShape (triangle : Triangle.t)
| Call_fillTriangle (x0 y0 x1 y1 x2 y2 : float)
| Call_strokeTriangle (x0 y0 x1 y1 x2 y2 : float)
| Call_strokeLineShape (line : Line.t)
| Call_lineBetween (x1 y1 x2 y2 : float)
| Call_lineTo (x y : float)
| Call_moveTo (x y : float)
| Call_lineFxTo (x y width rgb : float)
| Call_moveFxTo (x y width rgb : float)
| Call_strokePoints (points : list Point.t) (autoClose : option bool)
    (endIndex : option Z)
| Call_fillPoints (points : list Point.t) (autoClose : option bool)
    (endIndex : option Z)
| Call_strokeEllipseShape (ellipse : Ellipse.t) (smoothness : option float)
| Call_strokeEllipse (x y width height : float) (smoothness : option float)
| Call_fillEllipseShape (ellipse : Ellipse.t) (smoothness : option float)
| Call_fillEllipse (x y width height : float) (smoothness : option float)
| Call_arc (x y radius startAngle endAngle : float)
    (anticlockwise : option bool)
| Call_slice (x y radius startAngle endAngle : float)
    (anticlockwise : option bool)
| Call_save
| Call_restore
| Call_translate (x y : float)
| Call_scale (x y : float)
| Call_rotate (radians : float)
| Call_clear
| Call_generateTexture (key : TextureKey) (width height : option float)
| Call_preDestroy.

(** A method of the drawable alone, run next to an untouched world. *)
Definition on_graphics {env : Collaborators}
    (m : Graphics -> Graphics) (s : World * Graphics)
    : completion (World * Graphics) :=
  Normal (s.1, m s.2).

Definition on_graphics_throwing {env : Collaborators}
    (m : Graphics -> completion Graphics)
    (s : World * Graphics) : completion (World * Graphics) :=
  match m s.2 with
  | Normal g => Normal (s.1, g)
  | Throw e g => Throw e (s.1, g)
  end.

Definition exec {env : Collaborators}
    (c : call) : World * Graphics -> completion (World * Graphics) :=
  match c with
  | Call_setDefaultStyles options => on_graphics (setDefaultStyles options)
  | Call_lineStyle lineWidth color alpha =>
      on_graphics (lineStyle lineWidth color alpha)
  | Call_fillStyle color alpha => on_graphics (fillStyle color alpha)
  | Call_beginPath => on_graphics beginPath
  | Call_closePath => on_graphics closePath
  | Call_fillPath => on_graphics fillPath
  | Call_strokePath => on_graphics strokePath
  | Call_fillCircleShape circle => on_graphics (fillCircleShape circle)
  | Call_strokeCircleShape circle => on_graphics (strokeCircleShape circle)
  | Call_fillCircle x y radius => on_graphics (fillCircle x y radius)
  | Call_strokeCircle x y radius => on_graphics (strokeCircle x y radius)
  | Call_fillRectShape rect => on_graphics (fillRectShape rect)
  | Call_strokeRectShape rect => on_graphics (strokeRectShape rect)
  | Call_fillRect x y width height => on_graphics (fillRect x y width height)
  | Call_strokeRect x y width height =>
      on_graphics (strokeRect x y width height)
  | Call_fillPointShape point size => on_graphics (fillPointShape point size)
  | Call_fillPoint x y size => on_graphics (fillPoint x y size)
  | Call_fillTriangleShape triangle => on_graphics (fillTriangleShape triangle)
  | Call_strokeTriangleShape triangle =>
      on_graphics (strokeTriangleShape triangle)
  | Call_fillTriangle x0 y0 x1 y1 x2 y2 =>
      on_graphics (fillTriangle x0 y0 x1 y1 x2 y2)
  | Call_strokeTriangle x0 y0 x1 y1 x2 y2 =>
      on_graphics (strokeTriangle x0 y0 x1 y1 x2 y2)
  | Call_strokeLineShape line => on_graphics (strokeLineShape line)
  | Call_lineBetween x1 y1 x2 y2 => on_graphics (lineBetween x1 y1 x2 y2)
  | Call_lineTo x y => on_graphics (lineTo x y)
  | Call_moveTo x y => on_graphics (moveTo x y)
  | Call_lineFxTo x y width rgb => on_graphics (lineFxTo x y width rgb)
  | Call_moveFxTo x y width rgb => on_graphics (moveFxTo x y width rgb)
  | Call_strokePoints points autoClose endIndex =>
      on_graphics_throwing (strokePoints points autoClose endIndex)
  | Call_fillPoints points autoClose endIndex =>
      on_graphics_throwing (fillPoints points autoClose endIndex)
  | Call_strokeEllipseShape ellipse smoothness =>
      on_graphics_throwing (strokeEllipseShape ellipse smoothness)
  | Call_strokeEllipse x y width height smoothness =>
      on_graphics_throwing (strokeEllipse x y width height smoothness)
  | Call_fillEllipseShape ellipse smoothness =>
      on_graphics_throwing (fillEllipseShape ellipse smoothness)
  | Call_fillEllipse x y width height smoothness =>
      on_graphics_throwing (fillEllipse x y width height smoothness)
  | Call_arc x y radius startAngle endAngle anticlockwise =>
      on_graphics (arc x y radius startAngle endAngle anticlockwise)
  | Call_slice x y radius startAngle endAngle anticlockwise =>
      on_graphics (slice x y radius startAngle endAngle anticlockwise)
  | Call_save => on_graphics save
  | Call_restore => on_graphics restore
  | Call_translate x y => on_graphics (translate x y)
  | Call_scale x y => on_graphics (scale x y)
  | Call_rotate radians => on_graphics (rotate radians)
  | Call_clear => on_graphics clear
  | Call_generateTexture key width height => generateTexture key width height
  | Call_preDestroy => on_graphics preDestroy
  end.

(** A script of calls; an exception ends it. *)
Fixpoint run {env : Collaborators} (cs : list call) (s : World * Graphics)
    : completion (World * Graphics) :=
  match cs with
  | [] => Normal s
  | c :: cs => s <- exec c s ;; run cs s
  end.

(** The two operations that drop the buffer. *)
Definition drops_buffer (c : call) : bool :=
  match c with
  | Call_clear | Call_preDestroy => true
  | _ => false
  end.

(** The operations whose body can reach [lineStyle]. *)
Definition reaches_lineStyle (c : call) : bool :=
  match c with
  | Call_lineStyle _ _ _ | Call_setDefaultStyles _ | Call_clear => true
  | _ => false
  end.

(** *** Sample objects *)

Definition no_options : GraphicsOptions.t :=
  GraphicsOptions.mk None None None None.

(** [{ lineStyle: { width: 2, color: 0xff0000, alpha: 0.5 },
       fillStyle: { color: 0x00ff00 } }] *)
Definition both_styles : GraphicsOptions.t :=
  GraphicsOptions.mk None None
    (Some (GraphicsLineStyle.mk (Some 2%float) (Some 0xff0000%float)
             (Some 0.5%float)))
    (Some (GraphicsFillStyle.mk (Some 0x00ff00%float) None)).

Definition plain : Graphics := Graphics_new no_options.
Definition styled : Graphics := Graphics_new both_styles.

(** [new Graphics(scene, { fillStyle: { color: -0.5 } })]: a fill colour
    that is negative and still greater than -1. *)
Definition faint : Graphics :=
  Graphics_new
    (GraphicsOptions.mk None None None
       (Some (GraphicsFillStyle.mk (Some (-0.5)%float) None))).

(** *** The expansions the specification documents

    Each definition below writes down, as instructions, what the
    specification says a call appends; the theorems compare the code with
    them. *)

(** Whether a default colour is set: the test [color > -1] of [clear]. *)
Definition color_set (color : float) : bool := (-1 <? color)%float.

(** What [clear] re-applies: the fill default when set, then the stroke
    default when set. *)
Definition default_styles (g : Graphics) : list Instruction :=
  (if color_set (defaultFillColor g)
   then [iFILL_STYLE (defaultFillColor g) (defaultFillAlpha g)]
   else [])
  ++ (if color_set (defaultStrokeColor g)
      then [iLINE_STYLE (defaultStrokeWidth g) (defaultStrokeColor g)
              (defaultStrokeAlpha g)]
      else []).

(** The four edge groups of a stroked rectangle: left, right, top, bottom;
    [hw] widens the top and bottom edges on both ends. *)
Definition rect_outline (hw x y width height : float) : list Instruction :=
  [iBEGIN_PATH; iMOVE_TO x y; iLINE_TO x (y + height); iSTROKE_PATH;
   iBEGIN_PATH; iMOVE_TO (x + width) y; iLINE_TO (x + width) (y + height);
   iSTROKE_PATH;
   iBEGIN_PATH; iMOVE_TO (x - hw) y; iLINE_TO (x + hw + width) y;
   iSTROKE_PATH;
   iBEGIN_PATH; iMOVE_TO (x - hw) (y + height);
   iLINE_TO (x + hw + width) (y + height); iSTROKE_PATH]%float.

Definition line_to_point (p : Point.t) : Instruction :=
  iLINE_TO (Point.x p) (Point.y p).

(** A point path: move to the first point, a line to each point visited, a
    closing line back to the first point when asked for, then the final
    path instruction. *)
Definition point_path (p0 : Point.t) (visited : list Point.t)
    (autoClose : bool) (final : Instruction) : list Instruction :=
  [iBEGIN_PATH; iMOVE_TO (Point.x p0) (Point.y p0)]
  ++ map line_to_point visited
  ++ (if autoClose then [line_to_point p0] else [])
  ++ [final].

(** What [strokePoints] and [fillPoints] have in common: their bodies up to
    the final path instruction. *)
Definition pointPath (points : list Point.t) (autoClose : option bool)
    (endIndex : option Z) (g : Graphics) : completion Graphics :=
  let autoClose := default false autoClose in
  let endIndex := default (Z.of_nat (length points)) endIndex in
  let g := beginPath g in
  point_at points 0 g (fun first =>
    let g := moveTo (Point.x first) (Point.y first) g in
    g <- lineTo_each points (iterations endIndex) 1 g ;;
    if autoClose
    then point_at points 0 g (fun first =>
           Normal (lineTo (Point.x first) (Point.y first) g))
    else Normal g).

(** What the specification asks of a point path over no points: the defined
    error, raised before anything is appended. *)
Definition fails_with_empty_geometry (r : completion Graphics)
    (g : Graphics) : Prop :=
  r = Throw EmptyGeometry g.

(** [g'] is [g] with values pushed on its buffer and nothing else changed. *)
Definition pushed (g g' : Graphics) : Prop := exists vs, g' = push vs g.

(** Three sample points. *)
Definition p0 : Point.t := Point.mk 0 0.
Definition p1 : Point.t := Point.mk 10 0.
Definition p2 : Point.t := Point.mk 10 5.

(** *** Sample collaborators

    A raster records what was replayed into it; the canvas pool is
    exhausted, so creating a surface fails. *)

Definition recording : Collaborators := {|
  Pixels := list (list value * Camera);
  GLTexture := list (list value * Camera);
  getPoints := fun e _ => [Point.mk (Ellipse.x e) (Ellipse.y e)];
  renderCanvas := fun g camera px => px ++ [(commandBuffer g, camera)];
  canvasToTexture := fun px _ => px;
  CanvasPool_create := fun _ _ => None
|}.

(** A world with no texture and one blank canvas element, number 0. *)
Definition blank_world : @World recording :=
  mkWorld TargetCamera_init 800 600 false ∅ {[ 0 := [] ]}.

(** A script that draws without touching the line style. *)
Definition drawing_script : list call :=
  [Call_fillStyle 0x00ff00 None; Call_fillRect 0 0 4 4;
   Call_strokePoints [p0; p1; p2] (Some true) None;
   Call_generateTexture (KeyCanvas 0) None None].

(** *** Predicates of the further properties *)

(** A buffer made of whole instructions: each opcode with exactly the
    operands it takes. *)
Definition whole (b : list value) : Prop :=
  exists ins, Forall well_formed ins /\ b = flatten ins.

(** [g'] is [g] with whole instructions pushed on its buffer and nothing else
    changed. *)
Definition appended (g g' : Graphics) : Prop :=
  exists ins, Forall well_formed ins /\ g' = push (flatten ins) g.

(** The buffer of [g'] is the buffer of [g] followed by whole instructions. *)
Definition grows (g g' : Graphics) : Prop :=
  exists ins,
    Forall well_formed ins
    /\ commandBuffer g' = commandBuffer g ++ flatten ins.

(** The five style defaults of an object. *)
Definition style_defaults (g : Graphics)
    : float * float * float * float * float :=
  (defaultFillColor g, defaultFillAlpha g, defaultStrokeWidth g,
   defaultStrokeColor g, defaultStrokeAlpha g).

(** The one operation that assigns the style defaults. *)
Definition assigns_defaults (c : call) : bool :=
  match c with
  | Call_setDefaultStyles _ => true
  | _ => false
  end.

(** The line colour and the fill colour that given options make the
    defaults, when they give the style. *)
Definition given_stroke_color (options : GraphicsOptions.t) : option float :=
  match GraphicsOptions.lineStyle options with
  | Some ls => Some (GetValue (GraphicsLineStyle.color ls) 0xffffff%float)
  | None => None
  end.

Definition given_fill_color (options : GraphicsOptions.t) : option float :=
  match GraphicsOptions.fillStyle options with
  | Some fs => Some (GetValue (GraphicsFillStyle.color fs) 0xffffff%float)
  | None => None
  end.

(** A point list as sole result of the ellipse helper. *)
Definition sampling (points : list Point.t) : Collaborators := {|
  Pixels := list (list value * Camera);
  GLTexture := list (list value * Camera);
  getPoints := fun _ _ => points;
  renderCanvas := fun g camera px => px ++ [(commandBuffer g, camera)];
  canvasToTexture := fun px _ => px;
  CanvasPool_create := fun _ _ => None
|}.

(** A world in WebGL mode whose registry holds an image under "photo" and
    the canvas element 0 under "sheet". *)
Definition gl_world : @World recording :=
  mkWorld TargetCamera_init 800 600 true
    {[ "photo" := mkTexture HTMLImageElement None;
       "sheet" := mkTexture (HTMLCanvasElement 0) None ]}
    {[ 0 := [] ]}.

(** * Properties *)

(** ** The buffer under [push] *)

Lemma commandBuffer_push (vs : list value) (g : Graphics) :
  commandBuffer (push vs g) = commandBuffer g ++ vs.
Proof. reflexivity. Qed.

Lemma push_push (a b : list value) (g : Graphics) :
  push b (push a g) = push (a ++ b) g.
Proof. unfold push, set_commandBuffer; simpl. by rewrite app_assoc. Qed.

Lemma push_nil (g : Graphics) : push [] g = g.
Proof. destruct g. unfold push, set_commandBuffer; simpl. by rewrite app_nil_r. Qed.

Lemma push_inj (a b : list value) (g : Graphics) :
  push a g = push b g -> a = b.
Proof.
  intros H. apply (f_equal commandBuffer) in H.
  rewrite !commandBuffer_push in H. by apply app_inv_head in H.
Qed.

Lemma lineWidth_push (vs : list value) (g : Graphics) :
  _lineWidth (push vs g) = _lineWidth g.
Proof. reflexivity. Qed.

(** Unfolds the builders down to one [push]. *)
Ltac to_push :=
  repeat (rewrite push_push; simpl app).

(** ** Decoding what was flattened *)

Lemma flatten_cons (i : Instruction) (ins : list Instruction) :
  flatten (i :: ins) = VCmd (opcode i) :: operands i ++ flatten ins.
Proof. reflexivity. Qed.

Lemma flatten_app (a b : list Instruction) :
  flatten (a ++ b) = flatten a ++ flatten b.
Proof. unfold flatten. by rewrite map_app, concat_app. Qed.

Lemma decode_flatten (ins : list Instruction) :
  Forall well_formed ins ->
  forall fuel, length ins <= fuel -> decode fuel (flatten ins) = Some ins.
Proof.
  induction 1 as [|i ins Hi _ IH]; intros fuel Hfuel.
  - by destruct fuel.
  - destruct fuel as [|fuel]; [simpl in Hfuel; lia|].
    rewrite flatten_cons. simpl decode.
    unfold well_formed in Hi.
    assert (Hle : (arity (opcode i) <=? length (operands i ++ flatten ins)) = true).
    { apply Nat.leb_le. rewrite length_app. lia. }
    rewrite Hle, <- Hi, drop_app_length, take_app_length.
    rewrite IH by (simpl in Hfuel; lia).
    by destruct i.
Qed.

Lemma length_flatten (ins : list Instruction) :
  length ins <= length (flatten ins).
Proof.
  induction ins as [|i ins IH]; [done|].
  rewrite flatten_cons. simpl. rewrite length_app. lia.
Qed.

Lemma instructions_flatten (ins : list Instruction) :
  Forall well_formed ins -> instructions (flatten ins) = Some ins.
Proof. intros H. apply decode_flatten; [done | apply length_flatten]. Qed.

(** ** Comparisons of doubles *)

Lemma SFcompare_antisym (p q : spec_float) :
  SFcompare q p = option_map CompOpp (SFcompare p q).
Proof.
  destruct p as [sp|sp| |sp mp ep], q as [sq|sq| |sq mq eq]; simpl;
    try reflexivity; try (destruct sp; reflexivity);
    try (destruct sq; reflexivity);
    try (destruct sp, sq; reflexivity).
  f_equal. rewrite (Z.compare_antisym ep eq).
  destruct sp, sq; try reflexivity;
    destruct (ep ?= eq)%Z; simpl; try reflexivity;
    rewrite (Pos.compare_cont_antisym mp mq Eq); simpl;
    try reflexivity; symmetry; apply CompOpp_involutive.
Qed.




(** A colour that is not negative passes the test [color > -1] of
    [clear]; the sentinel [-1] does not. *)
Lemma nonnegative_color_passes (color : float) :
  (0 <=? color)%float = true -> (-1 <? color)%float = true.
Proof.
  rewrite FloatAxioms.leb_spec, FloatAxioms.ltb_spec.
  change (Prim2SF 0) with (S754_zero false).
  change (Prim2SF (-1)) with (S754_finite true 4503599627370496 (-52)).
  generalize 4503599627370496%positive (-52)%Z (Prim2SF color).
  intros m e p. unfold SFleb, SFltb.
  destruct p as [s|s| |s m' e']; simpl; try discriminate; try reflexivity;
    destruct s; try discriminate; reflexivity.
Qed.

Lemma sentinel_color_fails : (-1 <? -1)%float = false.
Proof. reflexivity. Qed.

(** ** Circles *)

(** C1 (what the code does). [fillCircle x y radius] appends BEGIN_PATH,
    one ARC from 0 to 2 pi around (x, y) and FILL_PATH, and [strokeCircle]
    the same with STROKE_PATH. Both call [arc] with five arguments, so the
    anticlockwise operand stored in the buffer is [undefined]: the appended
    sequence is not the one whose sixth ARC operand is the boolean false. *)
Theorem fillCircle_anticlockwise_undefined (x y radius : float) (g : Graphics) :
  fillCircle x y radius g
    = push (flatten [iBEGIN_PATH; iARC x y radius 0 PI2 VUndefined;
                     iFILL_PATH]) g
  /\ strokeCircle x y radius g
    = push (flatten [iBEGIN_PATH; iARC x y radius 0 PI2 VUndefined;
                     iSTROKE_PATH]) g
  /\ fillCircle x y radius g
    <> push (flatten [iBEGIN_PATH; iARC x y radius 0 PI2 (VBool false);
                      iFILL_PATH]) g
  /\ strokeCircle x y radius g
    <> push (flatten [iBEGIN_PATH; iARC x y radius 0 PI2 (VBool false);
                      iSTROKE_PATH]) g
  /\ commandBuffer (fillCircle 0 0 1 plain)
    = [VCmd BEGIN_PATH; VCmd ARC; VNum 0; VNum 0; VNum 1; VNum 0; VNum PI2;
       VUndefined; VCmd FILL_PATH].
Proof.
  assert (Hf : fillCircle x y radius g
    = push (flatten [iBEGIN_PATH; iARC x y radius 0 PI2 VUndefined;
                     iFILL_PATH]) g).
  { unfold fillCircle, beginPath, arc, fillPath. by to_push. }
  assert (Hs : strokeCircle x y radius g
    = push (flatten [iBEGIN_PATH; iARC x y radius 0 PI2 VUndefined;
                     iSTROKE_PATH]) g).
  { unfold strokeCircle, beginPath, arc, strokePath. by to_push. }
  repeat split; try assumption.
  - rewrite Hf. intros H. apply push_inj in H. discriminate H.
  - rewrite Hs. intros H. apply push_inj in H. discriminate H.
Qed.

(** ** Pie slices *)


(** ** Points *)



(** ** Clearing *)

Lemma clear_buffer (g : Graphics) :
  commandBuffer (clear g) = flatten (default_styles g).
Proof.
  destruct g as [gx gy buf fc fa sw sc sa lw].
  unfold clear, default_styles, color_set, truncate, fillStyle, lineStyle,
    push, set_lineWidth, set_commandBuffer; simpl.
  destruct (-1 <? fc)%float; simpl; destruct (-1 <? sc)%float; reflexivity.
Qed.

Lemma default_styles_well_formed (g : Graphics) :
  Forall well_formed (default_styles g).
Proof.
  unfold default_styles.
  destruct (color_set (defaultFillColor g)),
    (color_set (defaultStrokeColor g)); repeat constructor.
Qed.

(** C2 (as amended). After [clear] the buffer holds the cached style
    defaults and nothing else: FILL_STYLE(defaultFillColor,
    defaultFillAlpha) exactly when the default fill colour is set, then
    LINE_STYLE(defaultStrokeWidth, defaultStrokeColor, defaultStrokeAlpha)
    exactly when the default stroke colour is set; that is at most two
    instructions, fill before stroke, and none at all exactly when neither
    default is set. A colour is set when it passes the test [color > -1] of
    the source, which is not the same as being non-negative: every colour
    that is not negative passes and the sentinel -1 does not. *)
Theorem clear_reapplies_defaults (g : Graphics) :
  let fill_set := color_set (defaultFillColor g) in
  let stroke_set := color_set (defaultStrokeColor g) in
  let kept :=
    (if fill_set
     then [iFILL_STYLE (defaultFillColor g) (defaultFillAlpha g)] else [])
    ++ (if stroke_set
        then [iLINE_STYLE (defaultStrokeWidth g) (defaultStrokeColor g)
                (defaultStrokeAlpha g)]
        else []) in
  commandBuffer (clear g) = flatten kept
  /\ instructions (commandBuffer (clear g)) = Some kept
  /\ length kept <= 2
  /\ (commandBuffer (clear g) = [] <-> fill_set = false /\ stroke_set = false)
  /\ ((0 <=? defaultFillColor g)%float = true -> fill_set = true)
  /\ ((0 <=? defaultStrokeColor g)%float = true -> stroke_set = true)
  /\ color_set (-1) = false.
Proof.
  cbv zeta. fold (default_styles g).
  split; [apply clear_buffer|].
  split.
  { rewrite clear_buffer.
    apply instructions_flatten, default_styles_well_formed. }
  split.
  { unfold default_styles.
    destruct (color_set (defaultFillColor g)),
      (color_set (defaultStrokeColor g)); simpl; lia. }
  split.
  { rewrite clear_buffer. unfold default_styles.
    destruct (color_set (defaultFillColor g)),
      (color_set (defaultStrokeColor g)); simpl;
      split; try discriminate; try tauto; intros [? ?]; discriminate. }
  repeat split; try apply nonnegative_color_passes.
Qed.

Lemma clear_reapplies_defaults_witness :
  (0 <=? defaultFillColor styled)%float = true
  /\ (0 <=? defaultStrokeColor styled)%float = true
  /\ commandBuffer (clear styled)
     = flatten [iFILL_STYLE 0x00ff00 1; iLINE_STYLE 2 0xff0000 0.5]
  /\ commandBuffer (clear plain) = [].
Proof.
  pose proof (clear_reapplies_defaults styled) as Hs.
  pose proof (clear_reapplies_defaults plain) as Hp.
  cbv zeta in Hs, Hp.
  split; [reflexivity|]. split; [reflexivity|].
  split; [exact (proj1 Hs) | exact (proj1 Hp)].
Defined.

(** C2, the claim as stated, fails: with a default fill colour of -0.5 and
    no stroke default, neither colour is non-negative, yet [clear] re-applies
    FILL_STYLE(-0.5, 1) and the buffer is not empty. *)
Lemma clear_reapplies_negative_color :
  defaultFillColor faint = (-0.5)%float
  /\ (0 <=? defaultFillColor faint)%float = false
  /\ (0 <=? defaultStrokeColor faint)%float = false
  /\ color_set (defaultFillColor faint) = true
  /\ commandBuffer (clear faint) = flatten [iFILL_STYLE (-0.5) 1]
  /\ commandBuffer (clear faint) <> [].
Proof.
  split; [reflexivity|]. split; [reflexivity|]. split; [reflexivity|].
  split; [reflexivity|]. split; [reflexivity|]. discriminate.
Qed.

(** ** Construction against clearing *)

(** C10. With a line style and a fill style in the options,
    [setDefaultStyles] (and so the constructor) appends LINE_STYLE and then
    FILL_STYLE; with both defaults set, [clear] on the constructed object
    re-applies the same two instructions as FILL_STYLE and then LINE_STYLE:
    the cleared buffer is the constructed one reversed instruction-wise. *)
Theorem construction_and_clear_orders (ox oy : option float)
    (ls : GraphicsLineStyle.t) (fs : GraphicsFillStyle.t) :
  let options := GraphicsOptions.mk ox oy (Some ls) (Some fs) in
  let width := GetValue (GraphicsLineStyle.width ls) 1%float in
  let color := GetValue (GraphicsLineStyle.color ls) 0xffffff%float in
  let alpha := GetValue (GraphicsLineStyle.alpha ls) 1%float in
  let fcolor := GetValue (GraphicsFillStyle.color fs) 0xffffff%float in
  let falpha := GetValue (GraphicsFillStyle.alpha fs) 1%float in
  let constructed := [iLINE_STYLE width color alpha; iFILL_STYLE fcolor falpha] in
  color_set color = true ->
  color_set fcolor = true ->
  commandBuffer (Graphics_new options) = flatten constructed
  /\ commandBuffer (clear (Graphics_new options))
     = flatten [iFILL_STYLE fcolor falpha; iLINE_STYLE width color alpha]
  /\ commandBuffer (clear (Graphics_new options)) = flatten (rev constructed)
  /\ (forall g : Graphics,
       commandBuffer (setDefaultStyles options g)
         = commandBuffer g ++ flatten constructed).
Proof.
  cbv zeta. intros Hstroke Hfill.
  assert (Hclear :
    commandBuffer (clear (Graphics_new (GraphicsOptions.mk ox oy (Some ls) (Some fs))))
    = flatten
        [iFILL_STYLE (GetValue (GraphicsFillStyle.color fs) 0xffffff%float)
           (GetValue (GraphicsFillStyle.alpha fs) 1%float);
         iLINE_STYLE (GetValue (GraphicsLineStyle.width ls) 1%float)
           (GetValue (GraphicsLineStyle.color ls) 0xffffff%float)
           (GetValue (GraphicsLineStyle.alpha ls) 1%float)]).
  { rewrite clear_buffer. unfold default_styles. simpl.
    by rewrite Hfill, Hstroke. }
  split; [reflexivity|]. split; [exact Hclear|]. split; [exact Hclear|].
  intros g. unfold setDefaultStyles, lineStyle, fillStyle. simpl.
  by rewrite <- app_assoc.
Qed.

Lemma construction_and_clear_orders_witness :
  color_set 0xff0000 = true
  /\ color_set 0x00ff00 = true
  /\ commandBuffer styled
     = flatten [iLINE_STYLE 2 0xff0000 0.5; iFILL_STYLE 0x00ff00 1]
  /\ commandBuffer (clear styled)
     = flatten [iFILL_STYLE 0x00ff00 1; iLINE_STYLE 2 0xff0000 0.5].
Proof.
  pose proof
    (construction_and_clear_orders None None
       (GraphicsLineStyle.mk (Some 2%float) (Some 0xff0000%float) (Some 0.5%float))
       (GraphicsFillStyle.mk (Some 0x00ff00%float) None)
       eq_refl eq_refl) as H.
  cbv zeta in H.
  split; [reflexivity|]. split; [reflexivity|].
  split; [exact (proj1 H) | exact (proj1 (proj2 H))].
Defined.

(** ** Point paths *)

Lemma lineTo_each_in_bounds (points : list Point.t) (n : nat) :
  forall (i : nat) (g : Graphics),
    i + n <= length points ->
    lineTo_each points n i g
      = Normal (push (flatten (map line_to_point (take n (drop i points)))) g).
Proof.
  induction n as [|n IH]; intros i g Hlen; simpl.
  - by rewrite push_nil.
  - destruct (lookup_lt_is_Some_2 points i) as [p Hp]; [lia|].
    unfold point_at. rewrite Hp, IH by lia.
    rewrite (drop_S _ _ _ Hp). simpl take. simpl map.
    rewrite flatten_cons. unfold lineTo. by rewrite push_push.
Qed.

Lemma lineTo_each_out_of_bounds (points : list Point.t) (n : nat) :
  forall (i : nat) (g : Graphics),
    i <= length points < i + n ->
    exists g', lineTo_each points n i g = Throw (TypeError "x") g'.
Proof.
  induction n as [|n IH]; intros i g Hlen; [lia|]. simpl. unfold point_at.
  destruct (points !! i) as [p|] eqn:Hp; [|by eexists].
  apply lookup_lt_Some in Hp. apply IH. lia.
Qed.

Lemma strokePoints_pointPath (points : list Point.t) (autoClose : option bool)
    (endIndex : option Z) (g : Graphics) :
  strokePoints points autoClose endIndex g
  = (g <- pointPath points autoClose endIndex g ;; Normal (strokePath g)).
Proof.
  unfold strokePoints, pointPath, point_at.
  destruct (points !! 0) as [first|]; [|done]. cbv zeta.
  destruct (lineTo_each points _ 1 _) as [g1|e g1]; [|done]. simpl.
  by destruct (default false autoClose).
Qed.

Lemma fillPoints_pointPath (points : list Point.t) (autoClose : option bool)
    (endIndex : option Z) (g : Graphics) :
  fillPoints points autoClose endIndex g
  = (g <- pointPath points autoClose endIndex g ;; Normal (fillPath g)).
Proof.
  unfold fillPoints, pointPath, point_at.
  destruct (points !! 0) as [first|]; [|done]. cbv zeta.
  destruct (lineTo_each points _ 1 _) as [g1|e g1]; [|done]. simpl.
  by destruct (default false autoClose).
Qed.

Lemma pointPath_in_bounds (first : Point.t) (rest : list Point.t)
    (autoClose : option bool) (endIndex : option Z) (g : Graphics) :
  let points := first :: rest in
  let e := default (Z.of_nat (length points)) endIndex in
  (e <= Z.of_nat (length points))%Z ->
  pointPath points autoClose endIndex g
    = Normal
        (push
           (flatten
              ([iBEGIN_PATH; iMOVE_TO (Point.x first) (Point.y first)]
               ++ map line_to_point (take (iterations e) rest)
               ++ (if default false autoClose then [line_to_point first] else [])))
           g).
Proof.
  cbv zeta. intros He. unfold pointPath, point_at.
  change ((first :: rest) !! 0) with (Some first). cbv beta iota.
  rewrite lineTo_each_in_bounds
    by (unfold iterations; simpl length in *; lia).
  simpl and_then. simpl drop.
  unfold beginPath, moveTo, lineTo. rewrite !push_push.
  destruct (default false autoClose);
    rewrite ?push_push, !flatten_app; simpl;
    by rewrite ?drop_0, ?app_nil_r.
Qed.



(** An end index beyond the sequence makes the loop read past its end: the
    bound on the end index above cannot be dropped. *)
Lemma strokePoints_beyond_length (first : Point.t) (rest : list Point.t)
    (autoClose : option bool) (endIndex : Z) (g : Graphics) :
  (Z.of_nat (length (first :: rest)) < endIndex)%Z ->
  exists g',
    strokePoints (first :: rest) autoClose (Some endIndex) g
      = Throw (TypeError "x") g'.
Proof.
  intros He. rewrite strokePoints_pointPath. unfold pointPath, point_at.
  change ((first :: rest) !! 0) with (Some first). cbv beta iota zeta.
  simpl default.
  destruct (lineTo_each_out_of_bounds (first :: rest) (iterations endIndex) 1
              (moveTo (Point.x first) (Point.y first) (beginPath g)))
    as [g' Hg'].
  { unfold iterations. simpl length in *. lia. }
  rewrite Hg'. by exists g'.
Qed.

(** C4 (as amended). [strokePoints] and [fillPoints] make no emptiness
    check. On an empty sequence, whatever the other arguments, they append
    BEGIN_PATH, read the first point at index 0, which is out of bounds and
    yields [undefined], and end with the TypeError of reading its property
    [x]; the buffer keeps the BEGIN_PATH. *)
Theorem pointPaths_on_empty_sequence (autoClose : option bool)
    (endIndex : option Z) (g : Graphics) :
  ([] : list Point.t) !! 0 = None
  /\ strokePoints [] autoClose endIndex g
     = Throw (TypeError "x") (push (flatten [iBEGIN_PATH]) g)
  /\ fillPoints [] autoClose endIndex g
     = Throw (TypeError "x") (push (flatten [iBEGIN_PATH]) g).
Proof. repeat split. Qed.

(** C4, the claim as stated, fails: on an empty sequence the calls do not
    end with the specification's "empty geometry" error on an untouched
    object; they end with the TypeError of the out-of-bounds read, after
    BEGIN_PATH was appended. *)
Lemma pointPaths_empty_not_guarded :
  strokePoints [] None None plain
    = Throw (TypeError "x") (push [VCmd BEGIN_PATH] plain)
  /\ fillPoints [] None None plain
    = Throw (TypeError "x") (push [VCmd BEGIN_PATH] plain)
  /\ ~ fails_with_empty_geometry (strokePoints [] None None plain) plain
  /\ ~ fails_with_empty_geometry (fillPoints [] None None plain) plain.
Proof.
  unfold fails_with_empty_geometry.
  split; [reflexivity|]. split; [reflexivity|]. split; discriminate.
Qed.

(** ** What a call leaves of the object *)

Lemma pushed_refl (g : Graphics) : pushed g g.
Proof. exists []. by rewrite push_nil. Qed.

Lemma pushed_push (vs : list value) (g : Graphics) : pushed g (push vs g).
Proof. by exists vs. Qed.

Lemma pushed_trans (g1 g2 g3 : Graphics) :
  pushed g1 g2 -> pushed g2 g3 -> pushed g1 g3.
Proof. intros [a ->] [b ->]. exists (a ++ b). apply push_push. Qed.

Lemma pushed_prefix (g g' : Graphics) :
  pushed g g' -> commandBuffer g `prefix_of` commandBuffer g'.
Proof. intros [vs ->]. rewrite commandBuffer_push. by apply prefix_app_r. Qed.

Lemma pushed_lineWidth (g g' : Graphics) :
  pushed g g' -> _lineWidth g' = _lineWidth g.
Proof. by intros [vs ->]. Qed.

Ltac solve_pushed :=
  unfold fillCircleShape, strokeCircleShape, fillCircle, strokeCircle,
    fillRectShape, strokeRectShape, fillRect, strokeRect, fillPointShape,
    fillTriangleShape, strokeTriangleShape, fillTriangle, strokeTriangle,
    strokeLineShape, lineBetween, slice, fillStyle, beginPath, closePath,
    fillPath, strokePath, lineTo, moveTo, lineFxTo, moveFxTo, arc, save,
    restore, translate, scale, rotate;
  cbv zeta;
  repeat first
    [ apply pushed_refl
    | apply pushed_push
    | eapply pushed_trans; [| apply pushed_push] ].

Lemma fillPoint_pushed (x y : float) (size : option float) (g : Graphics) :
  pushed g (fillPoint x y size g).
Proof.
  unfold fillPoint. destruct size as [size|]; [|apply pushed_push].
  destruct (js_not size || (size <? 1)%float); apply pushed_push.
Qed.

Lemma lineTo_each_pushed (points : list Point.t) (n : nat) :
  forall (i : nat) (g : Graphics),
    pushed g (state_of (lineTo_each points n i g)).
Proof.
  induction n as [|n IH]; intros i g; simpl; [apply pushed_refl|].
  unfold point_at. destruct (points !! i) as [p|]; [|apply pushed_refl].
  eapply pushed_trans; [|apply IH]. apply pushed_push.
Qed.

Lemma pointPath_pushed (points : list Point.t) (autoClose : option bool)
    (endIndex : option Z) (g : Graphics) :
  pushed g (state_of (pointPath points autoClose endIndex g)).
Proof.
  unfold pointPath, point_at.
  destruct (points !! 0) as [first|]; [|apply pushed_push].
  set (g1 := moveTo _ _ _).
  assert (H1 : pushed g g1) by (subst g1; solve_pushed).
  pose proof (lineTo_each_pushed points
                (iterations (default (Z.of_nat (length points)) endIndex))
                1 g1) as H2.
  destruct (lineTo_each points _ 1 g1) as [g2|e g2]; simpl in *.
  - destruct (default false autoClose); simpl.
    + eapply pushed_trans; [|apply pushed_push].
      by eapply pushed_trans.
    + by eapply pushed_trans.
  - by eapply pushed_trans.
Qed.

Lemma strokePoints_pushed (points : list Point.t) (autoClose : option bool)
    (endIndex : option Z) (g : Graphics) :
  pushed g (state_of (strokePoints points autoClose endIndex g)).
Proof.
  rewrite strokePoints_pointPath.
  pose proof (pointPath_pushed points autoClose endIndex g) as H.
  destruct (pointPath points autoClose endIndex g) as [g1|e g1]; simpl in *;
    [|done].
  eapply pushed_trans; [exact H | apply pushed_push].
Qed.

Lemma fillPoints_pushed (points : list Point.t) (autoClose : option bool)
    (endIndex : option Z) (g : Graphics) :
  pushed g (state_of (fillPoints points autoClose endIndex g)).
Proof.
  rewrite fillPoints_pointPath.
  pose proof (pointPath_pushed points autoClose endIndex g) as H.
  destruct (pointPath points autoClose endIndex g) as [g1|e g1]; simpl in *;
    [|done].
  eapply pushed_trans; [exact H | apply pushed_push].
Qed.

Lemma state_of_on_graphics_throwing {env : Collaborators}
    (m : Graphics -> completion Graphics)
    (w : World) (g : Graphics) :
  (state_of (on_graphics_throwing m (w, g))).2 = state_of (m g).
Proof. unfold on_graphics_throwing. simpl. by destruct (m g). Qed.

Lemma generateTexture_graphics {env : Collaborators}
    (key : TextureKey) (width height : option float)
    (w : World) (g : Graphics) :
  (state_of (generateTexture key width height (w, g))).2 = g.
Proof.
  unfold generateTexture.
  by destruct (resolve_target _ _ _ _) as [e|[[texture ctx] w']].
Qed.

(** A call that neither reaches [lineStyle] nor drops the buffer only
    pushes. *)
Lemma exec_pushed {env : Collaborators} (c : call) (w : World) (g : Graphics) :
  reaches_lineStyle c = false ->
  drops_buffer c = false ->
  pushed g (state_of (exec c (w, g))).2.
Proof.
  destruct c; simpl reaches_lineStyle; simpl drops_buffer;
    try discriminate; intros _ _; unfold exec, on_graphics;
    rewrite ?state_of_on_graphics_throwing, ?generateTexture_graphics;
    cbn [state_of snd];
    unfold strokeEllipseShape, strokeEllipse, fillEllipseShape, fillEllipse;
    first
      [ apply fillPoint_pushed
      | apply strokePoints_pushed
      | apply fillPoints_pushed
      | solve_pushed ].
Qed.

Lemma lineStyle_prefix (lineWidth color : float) (alpha : option float)
    (g : Graphics) :
  commandBuffer g `prefix_of` commandBuffer (lineStyle lineWidth color alpha g).
Proof. by apply prefix_app_r. Qed.

Lemma setDefaultStyles_prefix (options : GraphicsOptions.t) (g : Graphics) :
  commandBuffer g `prefix_of` commandBuffer (setDefaultStyles options g).
Proof.
  unfold setDefaultStyles.
  destruct (GraphicsOptions.lineStyle options) as [ls|],
    (GraphicsOptions.fillStyle options) as [fs|]; simpl;
    rewrite <- ?app_assoc; first [done | by apply prefix_app_r].
Qed.

Lemma exec_prefix {env : Collaborators} (c : call) (w : World) (g : Graphics) :
  drops_buffer c = false ->
  commandBuffer g `prefix_of` commandBuffer (state_of (exec c (w, g))).2.
Proof.
  intros Hkeep. destruct (reaches_lineStyle c) eqn:Hreach.
  - destruct c; try discriminate; simpl.
    + apply setDefaultStyles_prefix.
    + apply lineStyle_prefix.
  - by apply pushed_prefix, exec_pushed.
Qed.

Lemma exec_lineWidth {env : Collaborators}
    (c : call) (w : World) (g : Graphics) :
  reaches_lineStyle c = false ->
  _lineWidth (state_of (exec c (w, g))).2 = _lineWidth g.
Proof.
  intros Hreach. destruct (drops_buffer c) eqn:Hdrop.
  - by destruct c.
  - by apply pushed_lineWidth, exec_pushed.
Qed.

Lemma state_of_run_cons {env : Collaborators}
    (c : call) (cs : list call) (s : World * Graphics) :
  state_of (run (c :: cs) s)
  = match exec c s with
    | Normal s' => state_of (run cs s')
    | Throw _ s' => s'
    end.
Proof. simpl. by destruct (exec c s). Qed.

Lemma run_prefix {env : Collaborators} (cs : list call) :
  forall (w : World) (g : Graphics),
    forallb (fun c => negb (drops_buffer c)) cs = true ->
    commandBuffer g `prefix_of` commandBuffer (state_of (run cs (w, g))).2.
Proof.
  induction cs as [|c cs IH]; intros w g Hcs; [done|].
  simpl in Hcs. apply andb_true_iff in Hcs as [Hc Hcs].
  apply negb_true_iff in Hc.
  rewrite state_of_run_cons.
  pose proof (exec_prefix c w g Hc) as H.
  destruct (exec c (w, g)) as [[w' g']|e [w' g']]; simpl in H; [|done].
  etrans; [exact H | by apply IH].
Qed.

Lemma run_lineWidth {env : Collaborators} (cs : list call) :
  forall (w : World) (g : Graphics),
    forallb (fun c => negb (reaches_lineStyle c)) cs = true ->
    _lineWidth (state_of (run cs (w, g))).2 = _lineWidth g.
Proof.
  induction cs as [|c cs IH]; intros w g Hcs; [done|].
  simpl in Hcs. apply andb_true_iff in Hcs as [Hc Hcs].
  apply negb_true_iff in Hc.
  rewrite state_of_run_cons.
  pose proof (exec_lineWidth c w g Hc) as H.
  destruct (exec c (w, g)) as [[w' g']|e [w' g']]; simpl in H; [|done].
  by rewrite IH.
Qed.

Lemma strokeRect_outline (x y width height : float) (g : Graphics) :
  strokeRect x y width height g
  = push (flatten (rect_outline (_lineWidth g / 2) x y width height)) g.
Proof.
  unfold strokeRect, beginPath, moveTo, lineTo, strokePath. cbv zeta.
  by rewrite !push_push.
Qed.


(** ** Stroked rectangles *)



(** ** Append-only buffer *)

(** C7. Every public operation other than [clear] and [preDestroy] only
    appends: the buffer before the call is a prefix of the buffer after it,
    also when the call ends by an exception, and so through any script of
    such calls. [preDestroy] leaves the empty buffer; [clear] drops all the
    old contents, leaving only the default styles it re-applies. *)
Theorem buffer_append_only {env : Collaborators} (c : call) (w : World)
    (g : Graphics) :
  let g' := (state_of (exec c (w, g))).2 in
  match c with
  | Call_clear => commandBuffer g' = flatten (default_styles g)
  | Call_preDestroy => commandBuffer g' = []
  | _ => commandBuffer g `prefix_of` commandBuffer g'
  end
  /\ (forall cs : list call,
       forallb (fun c => negb (drops_buffer c)) cs = true ->
       commandBuffer g `prefix_of` commandBuffer (state_of (run cs (w, g))).2).
Proof.
  cbv zeta. split; [|intros cs; apply run_prefix].
  destruct c;
    first [ apply clear_buffer | reflexivity | by apply exec_prefix ].
Qed.

Lemma buffer_append_only_witness :
  forallb (fun c => negb (drops_buffer c)) drawing_script = true
  /\ commandBuffer styled
       `prefix_of` commandBuffer (state_of (run drawing_script (blank_world, styled))).2.
Proof.
  split; [reflexivity|].
  exact (proj2 (buffer_append_only Call_save blank_world styled)
           drawing_script eq_refl).
Defined.

(** ** Captures *)

(** C9. [generateTexture] leaves the drawable as it was, whatever the key
    and the sizes: the command buffer, the style defaults and the other
    fields are those before the call, whether the capture completes or is
    aborted by an error of the texture registry. A key that is not
    registered while no surface can be allocated gives such an abort. *)
Theorem generateTexture_leaves_graphics {env : Collaborators} (key : TextureKey)
    (width height : option float) (w : World) (g : Graphics) :
  let g' := (state_of (generateTexture key width height (w, g))).2 in
  g' = g
  /\ commandBuffer g' = commandBuffer g
  /\ (defaultFillColor g', defaultFillAlpha g', defaultStrokeWidth g',
      defaultStrokeColor g', defaultStrokeAlpha g')
     = (defaultFillColor g, defaultFillAlpha g, defaultStrokeWidth g,
        defaultStrokeColor g, defaultStrokeAlpha g)
  /\ (forall k : string,
       textures w !! k = None ->
       CanvasPool_create (default (config_width w) width)
         (default (config_height w) height) = None ->
       exists w' : World,
         generateTexture (KeyString k) width height (w, g)
           = Throw (ResourceError "createCanvas") (w', g)).
Proof.
  cbv zeta. rewrite generateTexture_graphics.
  split; [done|]. split; [done|]. split; [done|].
  intros k Hk Hpool. unfold generateTexture, resolve_target, createCanvas.
  simpl. rewrite Hk, Hpool. by eexists.
Qed.

Lemma generateTexture_leaves_graphics_witness :
  textures blank_world !! "shape" = None
  /\ (exists w' : @World recording,
       generateTexture (KeyString "shape") None None (blank_world, styled)
         = Throw (ResourceError "createCanvas") (w', styled))
  /\ (state_of (generateTexture (KeyCanvas 0) None None (blank_world, styled))).2
     = styled.
Proof.
  split; [reflexivity|]. split.
  - exact (proj2 (proj2 (proj2
             (generateTexture_leaves_graphics (KeyString "shape") None None
                blank_world styled))) "shape" eq_refl eq_refl).
  - exact (proj1 (generateTexture_leaves_graphics (KeyCanvas 0) None None
                    blank_world styled)).
Defined.

(** * Further properties *)

(** ** Whole instructions *)

Lemma appended_refl (g : Graphics) : appended g g.
Proof. exists []. split; [constructor | by rewrite push_nil]. Qed.

Lemma appended_one (c : Command) (ops : list value) (g : Graphics) :
  length ops = arity c -> appended g (push (VCmd c :: ops) g).
Proof.
  intros Hops. exists [mkInstruction c ops]. split; [by repeat constructor|].
  unfold flatten. simpl. by rewrite app_nil_r.
Qed.

Lemma appended_trans (g1 g2 g3 : Graphics) :
  appended g1 g2 -> appended g2 g3 -> appended g1 g3.
Proof.
  intros (a & Ha & ->) (b & Hb & ->). exists (a ++ b).
  split; [by apply Forall_app|]. by rewrite push_push, flatten_app.
Qed.

Lemma appended_pushed (g g' : Graphics) : appended g g' -> pushed g g'.
Proof. intros (ins & _ & ->). by eexists. Qed.

Lemma appended_grows (g g' : Graphics) : appended g g' -> grows g g'.
Proof. intros (ins & Hins & ->). by exists ins. Qed.

Lemma grows_refl (g : Graphics) : grows g g.
Proof. exists []. split; [constructor | by rewrite app_nil_r]. Qed.

Lemma grows_trans (g1 g2 g3 : Graphics) :
  grows g1 g2 -> grows g2 g3 -> grows g1 g3.
Proof.
  intros (a & Ha & Ea) (b & Hb & Eb). exists (a ++ b).
  split; [by apply Forall_app|].
  by rewrite Eb, Ea, flatten_app, app_assoc.
Qed.

Lemma grows_whole (g g' : Graphics) :
  whole (commandBuffer g) -> grows g g' -> whole (commandBuffer g').
Proof.
  intros (a & Ha & Ea) (b & Hb & Eb). exists (a ++ b).
  split; [by apply Forall_app|]. by rewrite Eb, Ea, flatten_app.
Qed.

Lemma whole_decodes (b : list value) :
  whole b ->
  exists ins, Forall well_formed ins /\ b = flatten ins
              /\ instructions b = Some ins.
Proof.
  intros (ins & Hins & ->). exists ins.
  split; [done|]. split; [done|]. by apply instructions_flatten.
Qed.

Ltac solve_appended :=
  unfold fillCircleShape, strokeCircleShape, fillCircle, strokeCircle,
    fillRectShape, strokeRectShape, fillRect, strokeRect, fillPointShape,
    fillTriangleShape, strokeTriangleShape, fillTriangle, strokeTriangle,
    strokeLineShape, lineBetween, slice, fillStyle, beginPath, closePath,
    fillPath, strokePath, lineTo, moveTo, lineFxTo, moveFxTo, arc, save,
    restore, translate, scale, rotate;
  cbv zeta;
  repeat first
    [ apply appended_one; reflexivity
    | eapply appended_trans; [| apply appended_one; reflexivity]
    | apply appended_refl ].

Lemma fillPoint_appended (x y : float) (size : option float) (g : Graphics) :
  appended g (fillPoint x y size g).
Proof.
  unfold fillPoint. destruct size as [size|]; [|by apply appended_one].
  destruct (js_not size || (size <? 1)%float); by apply appended_one.
Qed.

Lemma lineTo_each_appended (points : list Point.t) (n : nat) :
  forall (i : nat) (g : Graphics),
    appended g (state_of (lineTo_each points n i g)).
Proof.
  induction n as [|n IH]; intros i g; simpl; [apply appended_refl|].
  unfold point_at. destruct (points !! i) as [p|]; [|apply appended_refl].
  eapply appended_trans; [|apply IH]. solve_appended.
Qed.

Lemma pointPath_appended (points : list Point.t) (autoClose : option bool)
    (endIndex : option Z) (g : Graphics) :
  appended g (state_of (pointPath points autoClose endIndex g)).
Proof.
  unfold pointPath, point_at.
  destruct (points !! 0) as [first|]; [|solve_appended].
  set (g1 := moveTo _ _ _).
  assert (H1 : appended g g1) by (subst g1; solve_appended).
  pose proof (lineTo_each_appended points
                (iterations (default (Z.of_nat (length points)) endIndex))
                1 g1) as H2.
  destruct (lineTo_each points _ 1 g1) as [g2|e g2]; simpl in *.
  - destruct (default false autoClose); simpl.
    + eapply appended_trans; [|solve_appended].
      by eapply appended_trans.
    + by eapply appended_trans.
  - by eapply appended_trans.
Qed.

Lemma strokePoints_appended (points : list Point.t) (autoClose : option bool)
    (endIndex : option Z) (g : Graphics) :
  appended g (state_of (strokePoints points autoClose endIndex g)).
Proof.
  rewrite strokePoints_pointPath.
  pose proof (pointPath_appended points autoClose endIndex g) as H.
  destruct (pointPath points autoClose endIndex g) as [g1|e g1]; simpl in *;
    [|done].
  eapply appended_trans; [exact H | solve_appended].
Qed.

Lemma fillPoints_appended (points : list Point.t) (autoClose : option bool)
    (endIndex : option Z) (g : Graphics) :
  appended g (state_of (fillPoints points autoClose endIndex g)).
Proof.
  rewrite fillPoints_pointPath.
  pose proof (pointPath_appended points autoClose endIndex g) as H.
  destruct (pointPath points autoClose endIndex g) as [g1|e g1]; simpl in *;
    [|done].
  eapply appended_trans; [exact H | solve_appended].
Qed.

Lemma exec_appended {env : Collaborators} (c : call) (w : World)
    (g : Graphics) :
  reaches_lineStyle c = false ->
  drops_buffer c = false ->
  appended g (state_of (exec c (w, g))).2.
Proof.
  destruct c; simpl reaches_lineStyle; simpl drops_buffer;
    try discriminate; intros _ _; unfold exec, on_graphics;
    rewrite ?state_of_on_graphics_throwing, ?generateTexture_graphics;
    cbn [state_of snd];
    unfold strokeEllipseShape, strokeEllipse, fillEllipseShape, fillEllipse;
    first
      [ apply fillPoint_appended
      | apply strokePoints_appended
      | apply fillPoints_appended
      | solve_appended ].
Qed.

Lemma lineStyle_grows (lineWidth color : float) (alpha : option float)
    (g : Graphics) :
  grows g (lineStyle lineWidth color alpha g).
Proof.
  exists [iLINE_STYLE lineWidth color (default 1%float alpha)].
  split; [by repeat constructor | reflexivity].
Qed.

Lemma setDefaultStyles_grows (options : GraphicsOptions.t) (g : Graphics) :
  grows g (setDefaultStyles options g).
Proof.
  unfold setDefaultStyles.
  destruct (GraphicsOptions.lineStyle options) as [ls|],
    (GraphicsOptions.fillStyle options) as [fs|].
  - eapply grows_trans; [|apply appended_grows; solve_appended].
    eapply grows_trans; [|apply lineStyle_grows].
    exists []. split; [constructor | simpl; by rewrite app_nil_r].
  - eapply grows_trans; [|apply lineStyle_grows].
    exists []. split; [constructor | simpl; by rewrite app_nil_r].
  - eapply grows_trans; [|apply appended_grows; solve_appended].
    exists []. split; [constructor | simpl; by rewrite app_nil_r].
  - apply grows_refl.
Qed.

Lemma exec_grows {env : Collaborators} (c : call) (w : World) (g : Graphics) :
  drops_buffer c = false -> grows g (state_of (exec c (w, g))).2.
Proof.
  intros Hkeep. destruct (reaches_lineStyle c) eqn:Hreach.
  - destruct c; try discriminate; simpl.
    + apply setDefaultStyles_grows.
    + apply lineStyle_grows.
  - by apply appended_grows, exec_appended.
Qed.

Lemma exec_whole {env : Collaborators} (c : call) (w : World) (g : Graphics) :
  whole (commandBuffer g) -> whole (commandBuffer (state_of (exec c (w, g))).2).
Proof.
  intros Hg. destruct (drops_buffer c) eqn:Hdrop.
  - destruct c; try discriminate; simpl.
    + rewrite clear_buffer. eexists.
      split; [apply default_styles_well_formed | done].
    + by exists [].
  - eapply grows_whole; [exact Hg | by apply exec_grows].
Qed.

Lemma run_whole {env : Collaborators} (cs : list call) :
  forall (w : World) (g : Graphics),
    whole (commandBuffer g) ->
    whole (commandBuffer (state_of (run cs (w, g))).2).
Proof.
  induction cs as [|c cs IH]; intros w g Hg; [done|].
  rewrite state_of_run_cons.
  pose proof (exec_whole c w g Hg) as H.
  destruct (exec c (w, g)) as [[w' g']|e [w' g']]; simpl in H; [|done].
  by apply IH.
Qed.

Lemma Graphics_new_whole (options : GraphicsOptions.t) :
  whole (commandBuffer (Graphics_new options)).
Proof.
  unfold Graphics_new. eapply grows_whole; [|apply setDefaultStyles_grows].
  by exists [].
Qed.

(** X1. The buffer always holds whole instructions. From construction on,
    through any script of public calls, also one ended by an exception, the
    buffer is the flat layout of a sequence of instructions each carrying
    exactly the operands of its opcode, and it decodes back to that
    sequence; every single call keeps a buffer of whole instructions so. *)
Theorem buffer_holds_whole_instructions {env : Collaborators}
    (options : GraphicsOptions.t) (cs : list call) (w : World) :
  let g' := (state_of (run cs (w, Graphics_new options))).2 in
  (exists ins,
     Forall well_formed ins
     /\ commandBuffer g' = flatten ins
     /\ instructions (commandBuffer g') = Some ins)
  /\ (forall (c : call) (g : Graphics),
       whole (commandBuffer g) ->
       whole (commandBuffer (state_of (exec c (w, g))).2)).
Proof.
  cbv zeta. split.
  - apply whole_decodes, run_whole, Graphics_new_whole.
  - intros c g. apply exec_whole.
Qed.

(** ** Style defaults and clearing *)

Lemma pushed_frame (g g' : Graphics) :
  pushed g g' ->
  style_defaults g' = style_defaults g /\ x g' = x g /\ y g' = y g.
Proof. by intros [vs ->]. Qed.

Lemma clear_frame (g : Graphics) :
  style_defaults (clear g) = style_defaults g
  /\ x (clear g) = x g /\ y (clear g) = y g.
Proof.
  destruct g as [gx gy buf fc fa sw sc sa lw].
  unfold clear, truncate, fillStyle, lineStyle, push, set_lineWidth,
    set_commandBuffer, style_defaults; simpl.
  destruct (-1 <? fc)%float; simpl; destruct (-1 <? sc)%float; done.
Qed.

Lemma setDefaultStyles_position (options : GraphicsOptions.t) (g : Graphics) :
  x (setDefaultStyles options g) = x g /\ y (setDefaultStyles options g) = y g.
Proof.
  unfold setDefaultStyles.
  by destruct (GraphicsOptions.lineStyle options),
    (GraphicsOptions.fillStyle options).
Qed.

Lemma exec_frame {env : Collaborators} (c : call) (w : World) (g : Graphics) :
  let g' := (state_of (exec c (w, g))).2 in
  (assigns_defaults c = false -> style_defaults g' = style_defaults g)
  /\ x g' = x g /\ y g' = y g.
Proof.
  cbv zeta.
  destruct (reaches_lineStyle c) eqn:Hreach;
    [|destruct (drops_buffer c) eqn:Hdrop].
  - destruct c; try discriminate; simpl.
    + split; [discriminate | apply setDefaultStyles_position].
    + done.
    + split; [intros _|]; apply clear_frame.
  - by destruct c.
  - destruct (pushed_frame g _ (exec_pushed c w g Hreach Hdrop)) as [Hd Hp].
    by split.
Qed.

Lemma run_frame {env : Collaborators} (cs : list call) :
  forall (w : World) (g : Graphics),
    let g' := (state_of (run cs (w, g))).2 in
    (forallb (fun c => negb (assigns_defaults c)) cs = true ->
     style_defaults g' = style_defaults g)
    /\ x g' = x g /\ y g' = y g.
Proof.
  induction cs as [|c cs IH]; intros w g; [done|].
  cbv zeta. rewrite state_of_run_cons.
  pose proof (exec_frame c w g) as (Hd & Hx & Hy). cbv zeta in *.
  destruct (exec c (w, g)) as [[w' g']|e [w' g']]; simpl in *.
  - destruct (IH w' g') as (Hd' & Hx' & Hy'). cbv zeta in *.
    split; [|by rewrite Hx', Hy'].
    intros Hcs. apply andb_true_iff in Hcs as [Hc Hcs].
    apply negb_true_iff in Hc. by rewrite Hd', Hd.
  - split; [|done]. intros Hcs. apply andb_true_iff in Hcs as [Hc Hcs].
    apply negb_true_iff in Hc. by apply Hd.
Qed.

Lemma default_styles_ext (g1 g2 : Graphics) :
  style_defaults g1 = style_defaults g2 -> default_styles g1 = default_styles g2.
Proof.
  unfold style_defaults, default_styles. intros H.
  by injection H as -> -> -> -> ->.
Qed.

Lemma lineWidth_clear (g : Graphics) :
  _lineWidth (clear g)
  = if color_set (defaultStrokeColor g) then defaultStrokeWidth g
    else _lineWidth g.
Proof.
  destruct g as [gx gy buf fc fa sw sc sa lw].
  unfold clear, color_set, truncate, fillStyle, lineStyle, push,
    set_lineWidth, set_commandBuffer; simpl.
  destruct (-1 <? fc)%float; simpl; by destruct (-1 <? sc)%float.
Qed.

Lemma clear_eq (g : Graphics) :
  clear g
  = mkGraphics (x g) (y g) (flatten (default_styles g)) (defaultFillColor g)
      (defaultFillAlpha g) (defaultStrokeWidth g) (defaultStrokeColor g)
      (defaultStrokeAlpha g)
      (if color_set (defaultStrokeColor g) then defaultStrokeWidth g
       else _lineWidth g).
Proof.
  destruct g as [gx gy buf fc fa sw sc sa lw].
  unfold clear, default_styles, color_set, truncate, fillStyle, lineStyle,
    push, set_lineWidth, set_commandBuffer; simpl.
  destruct (-1 <? fc)%float; simpl; by destruct (-1 <? sc)%float.
Qed.

(** X2. Only [setDefaultStyles] assigns the style defaults, and nothing
    moves the object: through any script of other calls, also one ended by
    an exception, the five defaults are those at the start, and through any
    script at all the position is. *)
Theorem style_defaults_kept {env : Collaborators} (cs : list call)
    (w : World) (g : Graphics) :
  forallb (fun c => negb (assigns_defaults c)) cs = true ->
  let g' := (state_of (run cs (w, g))).2 in
  defaultFillColor g' = defaultFillColor g
  /\ defaultFillAlpha g' = defaultFillAlpha g
  /\ defaultStrokeWidth g' = defaultStrokeWidth g
  /\ defaultStrokeColor g' = defaultStrokeColor g
  /\ defaultStrokeAlpha g' = defaultStrokeAlpha g
  /\ x g' = x g /\ y g' = y g.
Proof.
  intros Hcs. cbv zeta.
  destruct (run_frame cs w g) as (Hd & Hx & Hy). cbv zeta in *.
  specialize (Hd Hcs). unfold style_defaults in Hd.
  injection Hd as -> -> -> -> ->. by rewrite Hx, Hy.
Qed.

Lemma style_defaults_kept_witness :
  forallb (fun c => negb (assigns_defaults c))
    (Call_lineStyle 9 0 None :: Call_clear :: drawing_script) = true
  /\ defaultStrokeWidth
       (state_of
          (run (env := recording)
             (Call_lineStyle 9 0 None :: Call_clear :: drawing_script)
             (blank_world, styled))).2
     = defaultStrokeWidth styled.
Proof.
  split; [reflexivity|].
  exact (proj1 (proj2 (proj2
           (style_defaults_kept (env := recording)
              (Call_lineStyle 9 0 None :: Call_clear :: drawing_script)
              blank_world styled eq_refl)))).
Defined.

(** X3. [clear] does not look at the buffer it drops and is idempotent:
    clearing an object whose buffer was replaced, or clearing it twice,
    gives the very object one [clear] gives. *)
Theorem clear_idempotent (g : Graphics) :
  clear (clear g) = clear g
  /\ (forall b : list value, clear (set_commandBuffer b g) = clear g)
  /\ clear (preDestroy g) = clear g.
Proof.
  split; [|split; [intros b|]]; [|by rewrite !clear_eq..].
  pose proof (clear_frame g) as (Hd & Hx & Hy).
  unfold style_defaults in Hd. injection Hd as Hfc Hfa Hsw Hsc Hsa.
  rewrite (clear_eq (clear g)).
  rewrite (default_styles_ext (clear g) g)
    by (unfold style_defaults; congruence).
  rewrite Hx, Hy, Hfc, Hfa, Hsw, Hsc, Hsa, lineWidth_clear.
  rewrite (clear_eq g).
  by destruct (color_set (defaultStrokeColor g)).
Qed.

(** X4. [clear] brings back the configured baseline: after any script of
    calls other than [setDefaultStyles], the buffer [clear] leaves is the
    one it would have left at the start, the default styles alone. *)
Theorem clear_returns_to_baseline {env : Collaborators} (cs : list call)
    (w : World) (g : Graphics) :
  forallb (fun c => negb (assigns_defaults c)) cs = true ->
  let g' := (state_of (run cs (w, g))).2 in
  commandBuffer (clear g') = commandBuffer (clear g)
  /\ commandBuffer (clear g') = flatten (default_styles g).
Proof.
  intros Hcs. cbv zeta.
  destruct (run_frame cs w g) as (Hd & _). cbv zeta in Hd.
  rewrite !clear_buffer. by rewrite (default_styles_ext _ _ (Hd Hcs)).
Qed.

Lemma clear_returns_to_baseline_witness :
  forallb (fun c => negb (assigns_defaults c)) drawing_script = true
  /\ commandBuffer
       (clear (state_of (run (env := recording) drawing_script
                           (blank_world, styled))).2)
     = commandBuffer (clear styled).
Proof.
  split; [reflexivity|].
  exact (proj1 (clear_returns_to_baseline (env := recording) drawing_script
                  blank_world styled eq_refl)).
Defined.

(** X5. [clear] and the cached line width. With a stroke default set,
    [clear] resets the cache to the default stroke width; without one it
    keeps the cache, so after [lineStyle] and [clear] the buffer holds no
    LINE_STYLE and [strokeRect] still widens its top and bottom edges by
    half the width of the discarded line style. *)
Theorem clear_and_line_width_cache (x y width height : float) (g : Graphics) :
  let hw :=
    ((if color_set (defaultStrokeColor g) then defaultStrokeWidth g
      else _lineWidth g) / 2)%float in
  strokeRect x y width height (clear g)
    = push (flatten (rect_outline hw x y width height)) (clear g)
  /\ (color_set (defaultStrokeColor g) = false ->
      forall (lineWidth color : float) (alpha : option float),
        let g' := clear (lineStyle lineWidth color alpha g) in
        Forall (fun i => opcode i <> LINE_STYLE) (default_styles g)
        /\ commandBuffer g' = flatten (default_styles g)
        /\ strokeRect x y width height g'
           = push (flatten (rect_outline (lineWidth / 2) x y width height)) g').
Proof.
  cbv zeta. split.
  - by rewrite strokeRect_outline, lineWidth_clear.
  - intros Hunset lineWidth color alpha. split; [|split].
    + unfold default_styles. rewrite Hunset.
      destruct (color_set (defaultFillColor g)); repeat constructor; discriminate.
    + by rewrite (clear_buffer (lineStyle lineWidth color alpha g)).
    + rewrite strokeRect_outline, lineWidth_clear.
      change (defaultStrokeColor (lineStyle lineWidth color alpha g))
        with (defaultStrokeColor g).
      by rewrite Hunset.
Qed.

Lemma clear_and_line_width_cache_witness :
  color_set (defaultStrokeColor plain) = false
  /\ commandBuffer (clear (lineStyle 8 0 None plain)) = []
  /\ strokeRect 0 0 10 10 (clear (lineStyle 8 0 None plain))
     = push (flatten (rect_outline 4 0 0 10 10)) (clear (lineStyle 8 0 None plain)).
Proof.
  pose proof (proj2 (clear_and_line_width_cache 0 0 10 10 plain) eq_refl
                8%float 0%float None) as H.
  cbv zeta in H.
  split; [reflexivity|]. split; [exact (proj1 (proj2 H)) | exact (proj2 (proj2 H))].
Defined.

(** X6. What [clear] re-applies on a new object is what the constructor
    pushed, up to order: when every colour the options give passes the test
    [color > -1], the style instructions in the buffer after construction
    and after a following [clear] are a permutation of each other. *)
Theorem clear_restores_constructed_styles (options : GraphicsOptions.t) :
  (forall c, given_stroke_color options = Some c -> color_set c = true) ->
  (forall c, given_fill_color options = Some c -> color_set c = true) ->
  exists built kept : list Instruction,
    commandBuffer (Graphics_new options) = flatten built
    /\ commandBuffer (clear (Graphics_new options)) = flatten kept
    /\ Forall well_formed built
    /\ kept ≡ₚ built.
Proof.
  destruct options as [ox oy [ls|] [fs|]];
    unfold given_stroke_color, given_fill_color;
    cbn [GraphicsOptions.lineStyle GraphicsOptions.fillStyle];
    intros Hs Hf;
    match goal with
    | |- context [clear ?g] => rewrite (clear_buffer g)
    end;
    unfold default_styles; simpl.
  - rewrite (Hs _ eq_refl), (Hf _ eq_refl).
    exists [iLINE_STYLE (GetValue (GraphicsLineStyle.width ls) 1%float)
              (GetValue (GraphicsLineStyle.color ls) 0xffffff%float)
              (GetValue (GraphicsLineStyle.alpha ls) 1%float);
            iFILL_STYLE (GetValue (GraphicsFillStyle.color fs) 0xffffff%float)
              (GetValue (GraphicsFillStyle.alpha fs) 1%float)].
    eexists. split; [reflexivity|]. split; [reflexivity|].
    split; [by repeat constructor | apply perm_swap].
  - rewrite (Hs _ eq_refl).
    exists [iLINE_STYLE (GetValue (GraphicsLineStyle.width ls) 1%float)
              (GetValue (GraphicsLineStyle.color ls) 0xffffff%float)
              (GetValue (GraphicsLineStyle.alpha ls) 1%float)].
    eexists. split; [reflexivity|]. split; [reflexivity|].
    split; [by repeat constructor | done].
  - rewrite (Hf _ eq_refl).
    exists [iFILL_STYLE (GetValue (GraphicsFillStyle.color fs) 0xffffff%float)
              (GetValue (GraphicsFillStyle.alpha fs) 1%float)].
    eexists. split; [reflexivity|]. split; [reflexivity|].
    split; [by repeat constructor | done].
  - exists [], []. by repeat split.
Qed.

Lemma clear_restores_constructed_styles_witness :
  given_stroke_color both_styles = Some 0xff0000%float
  /\ given_fill_color both_styles = Some 0x00ff00%float
  /\ exists built kept : list Instruction,
       commandBuffer styled = flatten built
       /\ commandBuffer (clear styled) = flatten kept
       /\ Forall well_formed built
       /\ kept ≡ₚ built.
Proof.
  split; [reflexivity|]. split; [reflexivity|].
  apply (clear_restores_constructed_styles both_styles).
  - intros c [= <-]. reflexivity.
  - intros c [= <-]. reflexivity.
Defined.

(** ** Points, once more *)

Lemma SFcompare_finite_None (p : spec_float) (s : bool) (m : positive) (e : Z) :
  SFcompare p (S754_finite s m e) = None -> p = S754_nan.
Proof.
  destruct p as [sp|sp| |sp mp ep]; simpl; try done;
    destruct sp; try discriminate; destruct s; discriminate.
Qed.

(** The centring branch of [fillPoint] is only taken by a size of at least
    one. *)
Lemma centring_size_at_least_one (size : float) :
  js_not size || (size <? 1)%float = false -> (1 <=? size)%float = true.
Proof.
  unfold js_not, is_zero, is_nan.
  rewrite FloatAxioms.leb_spec, FloatAxioms.ltb_spec, !FloatAxioms.eqb_spec.
  change (Prim2SF 1) with (S754_finite false 4503599627370496 (-52)).
  generalize 4503599627370496%positive (-52)%Z (Prim2SF size).
  intros m e p H.
  apply orb_false_elim in H as [H Hlt].
  apply orb_false_elim in H as [_ Hnan].
  apply negb_false_iff in Hnan.
  unfold SFleb. unfold SFltb in Hlt.
  rewrite (SFcompare_antisym p (S754_finite false m e)).
  destruct (SFcompare p (S754_finite false m e)) as [[]|] eqn:Hc;
    simpl; try done.
  apply SFcompare_finite_None in Hc. subst p. discriminate Hnan.
Qed.

(** X7. [fillPoint] always appends one square of side at least one: for
    every size, given or not, the call is a [fillRect] of equal width and
    height with [1 <= side]; either the unit square at the very coordinates
    (size left out, zero, NaN or below one), or the square of the given side
    moved left and up by half of it. *)
Theorem fillPoint_is_a_square (x y : float) (size : option float)
    (g : Graphics) :
  (exists x' y' side : float,
     fillPoint x y size g = fillRect x' y' side side g
     /\ (1 <=? side)%float = true
     /\ ((side = 1%float /\ x' = x /\ y' = y)
         \/ (size = Some side /\ x' = (x - side / 2)%float
             /\ y' = (y - side / 2)%float)))
  /\ fillPoint x y (Some nan) g = fillRect x y 1 1 g
  /\ (forall s : float,
       (s <? 0)%float = true -> fillPoint x y (Some s) g = fillRect x y 1 1 g).
Proof.
  split; [|split].
  - unfold fillPoint, fillRect. destruct size as [size|].
    + destruct (js_not size || (size <? 1)%float) eqn:Hbranch.
      * exists x, y, 1%float. split; [done|]. split; [done|]. by left.
      * exists (x - size / 2)%float, (y - size / 2)%float, size.
        split; [done|].
        split; [by apply centring_size_at_least_one|]. by right.
    + exists x, y, 1%float. split; [done|]. split; [done|]. by left.
  - reflexivity.
  - intros s Hs. unfold fillPoint, fillRect.
    destruct (js_not s || (s <? 1)%float) eqn:Hbranch; [done|].
    apply centring_size_at_least_one in Hbranch.
    exfalso. revert Hs Hbranch.
    rewrite FloatAxioms.leb_spec, FloatAxioms.ltb_spec.
    change (Prim2SF 1) with (S754_finite false 4503599627370496 (-52)).
    change (Prim2SF 0) with (S754_zero false).
    generalize 4503599627370496%positive (-52)%Z (Prim2SF s).
    intros m e p. unfold SFltb, SFleb.
    destruct p as [sp|sp| |sp mp ep]; simpl; try discriminate;
      destruct sp; discriminate.
Qed.

(** ** Point paths, once more *)

Lemma lineTo_each_past_end (points : list Point.t) (n : nat) :
  forall (i : nat) (g : Graphics),
    i <= length points < i + n ->
    lineTo_each points n i g
      = Throw (TypeError "x")
          (push (flatten (map line_to_point (drop i points))) g).
Proof.
  induction n as [|n IH]; intros i g Hlen; [lia|]. simpl. unfold point_at.
  destruct (points !! i) as [p|] eqn:Hp.
  - pose proof (lookup_lt_Some _ _ _ Hp) as Hi.
    rewrite IH by lia. rewrite (drop_S _ _ _ Hp). simpl map.
    rewrite flatten_cons. unfold lineTo. by rewrite push_push.
  - apply lookup_ge_None in Hp. rewrite drop_ge by done.
    by rewrite push_nil.
Qed.

Lemma pointPath_past_end (first : Point.t) (rest : list Point.t)
    (autoClose : option bool) (endIndex : Z) (g : Graphics) :
  (Z.of_nat (length (first :: rest)) < endIndex)%Z ->
  pointPath (first :: rest) autoClose (Some endIndex) g
    = Throw (TypeError "x")
        (push
           (flatten
              ([iBEGIN_PATH; iMOVE_TO (Point.x first) (Point.y first)]
               ++ map line_to_point rest)) g).
Proof.
  intros He. unfold pointPath, point_at.
  change ((first :: rest) !! 0) with (Some first). cbv beta iota zeta.
  simpl default.
  rewrite lineTo_each_past_end
    by (unfold iterations; simpl length in *; lia).
  simpl and_then. simpl drop. rewrite drop_0.
  unfold beginPath, moveTo. rewrite !push_push, flatten_app. done.
Qed.

(** X8. An end index beyond the sequence. On a non-empty sequence with an
    end index greater than its length, [strokePoints] and [fillPoints] throw
    the TypeError of reading past the last point, and the buffer keeps what
    was appended until then: BEGIN_PATH, MOVE_TO and a LINE_TO for every
    further point, with no closing line and no final STROKE_PATH or
    FILL_PATH. *)
Theorem pointPaths_past_the_end (first : Point.t) (rest : list Point.t)
    (autoClose : option bool) (endIndex : Z) (g : Graphics) :
  (Z.of_nat (length (first :: rest)) < endIndex)%Z ->
  let dangling :=
    [iBEGIN_PATH; iMOVE_TO (Point.x first) (Point.y first)]
    ++ map line_to_point rest in
  strokePoints (first :: rest) autoClose (Some endIndex) g
    = Throw (TypeError "x") (push (flatten dangling) g)
  /\ fillPoints (first :: rest) autoClose (Some endIndex) g
    = Throw (TypeError "x") (push (flatten dangling) g)
  /\ Forall (fun i => opcode i <> STROKE_PATH /\ opcode i <> FILL_PATH) dangling.
Proof.
  intros He. cbv zeta.
  rewrite strokePoints_pointPath, fillPoints_pointPath.
  rewrite (pointPath_past_end first rest autoClose endIndex g He).
  split; [done|]. split; [done|].
  apply Forall_app. split; [repeat constructor; discriminate|].
  apply Forall_forall. intros i Hi.
  apply list_elem_of_fmap in Hi as (p & -> & _). split; discriminate.
Qed.

Lemma pointPaths_past_the_end_witness :
  (Z.of_nat (length [p0; p1; p2]) < 5)%Z
  /\ strokePoints [p0; p1; p2] (Some true) (Some 5%Z) plain
     = Throw (TypeError "x")
         (push (flatten [iBEGIN_PATH; iMOVE_TO 0 0; iLINE_TO 10 0; iLINE_TO 10 5])
            plain).
Proof.
  split; [reflexivity|].
  exact (proj1 (pointPaths_past_the_end p0 [p1; p2] (Some true) 5%Z plain
                  eq_refl)).
Defined.

(** X9. The end index draws a prefix. With an end index from 1 to the
    length, [strokePoints] and [fillPoints] do exactly what they do on the
    first [endIndex] points with the end index left out. *)
Theorem pointPaths_end_index_is_prefix (points : list Point.t)
    (autoClose : option bool) (endIndex : Z) (g : Graphics) :
  (1 <= endIndex <= Z.of_nat (length points))%Z ->
  strokePoints points autoClose (Some endIndex) g
    = strokePoints (take (Z.to_nat endIndex) points) autoClose None g
  /\ fillPoints points autoClose (Some endIndex) g
    = fillPoints (take (Z.to_nat endIndex) points) autoClose None g.
Proof.
  intros He.
  destruct points as [|first rest]; [simpl in He; lia|].
  destruct (Z.to_nat endIndex) as [|k] eqn:Hk; [lia|]. simpl take.
  assert (Hpath :
    pointPath (first :: rest) autoClose (Some endIndex) g
    = pointPath (first :: take k rest) autoClose None g).
  { rewrite (pointPath_in_bounds first rest autoClose (Some endIndex) g)
      by (change (default _ (Some endIndex)) with endIndex; lia).
    rewrite (pointPath_in_bounds first (take k rest) autoClose None g)
      by apply Z.le_refl.
    simpl default. unfold iterations.
    replace (Z.to_nat (endIndex - 1)) with k by lia.
    simpl length. rewrite length_take.
    replace (Z.to_nat (Z.of_nat (S (k `min` length rest)) - 1))
      with (k `min` length rest) by lia.
    rewrite take_take.
    replace ((k `min` length rest) `min` k) with k; [done|].
    simpl length in He. lia. }
  by rewrite !strokePoints_pointPath, !fillPoints_pointPath, Hpath.
Qed.

Lemma pointPaths_end_index_is_prefix_witness :
  (1 <= 2 <= Z.of_nat (length [p0; p1; p2]))%Z
  /\ strokePoints [p0; p1; p2] None (Some 2%Z) plain
     = strokePoints [p0; p1] None None plain.
Proof.
  assert (H : (1 <= 2 <= Z.of_nat (length [p0; p1; p2]))%Z) by (simpl; lia).
  split; [exact H|].
  exact (proj1 (pointPaths_end_index_is_prefix [p0; p1; p2] None 2%Z plain H)).
Defined.

(** X10. [strokePoints] and [fillPoints] differ in the final instruction
    only: on the same arguments both complete, on objects that are one and
    the same object followed by [strokePath] and by [fillPath], or both
    throw the same exception on the same object. *)
Theorem strokePoints_fillPoints_agree (points : list Point.t)
    (autoClose : option bool) (endIndex : option Z) (g : Graphics) :
  match strokePoints points autoClose endIndex g,
        fillPoints points autoClose endIndex g with
  | Normal gs, Normal gf =>
      exists g1 : Graphics, gs = strokePath g1 /\ gf = fillPath g1
  | Throw es gs, Throw ef gf => es = ef /\ gs = gf
  | _, _ => False
  end.
Proof.
  rewrite strokePoints_pointPath, fillPoints_pointPath.
  destruct (pointPath points autoClose endIndex g) as [g1|e g1]; simpl.
  - by exists g1.
  - done.
Qed.

(** ** Ellipses *)

(** X11. An ellipse is the closed polygon of the points the ellipse helper
    returns. When the helper returns at least one point, [strokeEllipse]
    and [fillEllipse] (and the shape forms on the same ellipse) append
    BEGIN_PATH, MOVE_TO the first point, a LINE_TO for every further point,
    a closing LINE_TO back to the first point and STROKE_PATH or FILL_PATH:
    three instructions more than there are points. The helper is asked for
    32 points when the smoothness is left out. *)
Theorem ellipse_is_closed_polygon {env : Collaborators}
    (x y width height : float) (smoothness : option float)
    (first : Point.t) (rest : list Point.t) (g : Graphics) :
  getPoints (Ellipse.mk x y width height) (default 32%float smoothness)
    = first :: rest ->
  strokeEllipse x y width height smoothness g
    = Normal (push (flatten (point_path first rest true iSTROKE_PATH)) g)
  /\ fillEllipse x y width height smoothness g
    = Normal (push (flatten (point_path first rest true iFILL_PATH)) g)
  /\ strokeEllipseShape (Ellipse.mk x y width height) smoothness g
    = strokeEllipse x y width height smoothness g
  /\ fillEllipseShape (Ellipse.mk x y width height) smoothness g
    = fillEllipse x y width height smoothness g
  /\ length (point_path first rest true iSTROKE_PATH)
    = length (first :: rest) + 3.
Proof.
  intros Hpoints.
  assert (Hpath :
    pointPath (first :: rest) (Some true) None g
    = Normal
        (push
           (flatten
              ([iBEGIN_PATH; iMOVE_TO (Point.x first) (Point.y first)]
               ++ map line_to_point rest ++ [line_to_point first])) g)).
  { rewrite (pointPath_in_bounds first rest (Some true) None g)
      by apply Z.le_refl.
    simpl default. unfold iterations.
    rewrite take_ge by (simpl length; lia). done. }
  unfold strokeEllipse, fillEllipse, strokeEllipseShape, fillEllipseShape.
  cbv zeta. rewrite Hpoints.
  rewrite strokePoints_pointPath, fillPoints_pointPath, Hpath.
  simpl and_then. unfold strokePath, fillPath, point_path.
  rewrite !push_push.
  split; [|split; [|split; [done|split; [done|]]]].
  - change [VCmd STROKE_PATH] with (flatten [iSTROKE_PATH]).
    rewrite <- flatten_app. do 3 f_equal. simpl. by rewrite <- app_assoc.
  - change [VCmd FILL_PATH] with (flatten [iFILL_PATH]).
    rewrite <- flatten_app. do 3 f_equal. simpl. by rewrite <- app_assoc.
  - simpl. rewrite length_app, length_map. simpl. lia.
Qed.

Lemma ellipse_is_closed_polygon_witness :
  getPoints (Collaborators := sampling [p0; p1; p2])
    (Ellipse.mk 0 0 20 10) (default 32%float None) = [p0; p1; p2]
  /\ strokeEllipse (env := sampling [p0; p1; p2]) 0 0 20 10 None plain
     = Normal (push (flatten (point_path p0 [p1; p2] true iSTROKE_PATH)) plain).
Proof.
  split; [reflexivity|].
  exact (proj1 (ellipse_is_closed_polygon (env := sampling [p0; p1; p2])
                  0 0 20 10 None p0 [p1; p2] plain eq_refl)).
Defined.

(** X12. An ellipse without points. When the ellipse helper returns no
    point, the four ellipse calls throw the TypeError of reading the first
    point, with BEGIN_PATH already appended. *)
Theorem ellipse_without_points {env : Collaborators}
    (x y width height : float) (smoothness : option float) (g : Graphics) :
  getPoints (Ellipse.mk x y width height) (default 32%float smoothness) = [] ->
  strokeEllipse x y width height smoothness g
    = Throw (TypeError "x") (push (flatten [iBEGIN_PATH]) g)
  /\ fillEllipse x y width height smoothness g
    = Throw (TypeError "x") (push (flatten [iBEGIN_PATH]) g)
  /\ strokeEllipseShape (Ellipse.mk x y width height) smoothness g
    = Throw (TypeError "x") (push (flatten [iBEGIN_PATH]) g)
  /\ fillEllipseShape (Ellipse.mk x y width height) smoothness g
    = Throw (TypeError "x") (push (flatten [iBEGIN_PATH]) g).
Proof.
  intros Hpoints.
  unfold strokeEllipse, fillEllipse, strokeEllipseShape, fillEllipseShape.
  cbv zeta. by rewrite Hpoints.
Qed.

Lemma ellipse_without_points_witness :
  getPoints (Collaborators := sampling [])
    (Ellipse.mk 0 0 20 10) (default 32%float (Some 0%float)) = []
  /\ fillEllipse (env := sampling []) 0 0 20 10 (Some 0%float) plain
     = Throw (TypeError "x") (push (flatten [iBEGIN_PATH]) plain).
Proof.
  split; [reflexivity|].
  exact (proj1 (proj2 (ellipse_without_points (env := sampling [])
                         0 0 20 10 (Some 0%float) plain eq_refl))).
Defined.

(** ** Captures, once more *)

Lemma TargetCamera_capture {env : Collaborators} (g : Graphics)
    (texture : option (string * Texture)) (ctx : option nat) (w : World) :
  TargetCamera (capture g texture ctx w) = TargetCamera w.
Proof.
  unfold capture. destruct ctx as [canvas|]; [|done]. simpl.
  destruct (renderer_gl w); [|done].
  destruct texture as [[k t]|]; [|done].
  by destruct (alter _ canvas (canvases w) !! canvas).
Qed.

Lemma TargetCamera_resolve_target {env : Collaborators} (key : TextureKey)
    (width height : float) (w w' : World)
    (texture : option (string * Texture)) (ctx : option nat) :
  resolve_target key width height w = inr (texture, ctx, w') ->
  TargetCamera w' = TargetCamera w.
Proof.
  unfold resolve_target, createCanvas.
  destruct key as [k|canvas|]; [|by intros [= _ _ <-]..].
  destruct (textures w !! k) as [t|]; [by intros [= _ _ <-]|].
  destruct (CanvasPool_create width height) as [[canvas px]|];
    [by intros [= _ _ <-] | done].
Qed.

(** X13. Every capture points the shared camera at the drawable. After
    [generateTexture], completed or aborted, the capture camera has the
    viewport (0, 0, width, height), the sizes defaulting to those of the
    game configuration, and is scrolled to the position of the drawable. *)
Theorem generateTexture_sets_camera {env : Collaborators} (key : TextureKey)
    (width height : option float) (w : World) (g : Graphics) :
  TargetCamera (state_of (generateTexture key width height (w, g))).1
  = mkCamera 0 0 (default (config_width w) width)
      (default (config_height w) height) (x g) (y g).
Proof.
  unfold generateTexture.
  destruct (resolve_target key _ _ _) as [e|[[texture ctx] w']] eqn:Hr;
    cbn [state_of fst]; [done|].
  by rewrite TargetCamera_capture, (TargetCamera_resolve_target _ _ _ _ _ _ _ Hr).
Qed.

(** X14. A capture with nothing to draw to is silent. When the key is
    neither a string nor a canvas, or is the name of a registered texture
    whose source image is not a canvas, [generateTexture] completes without
    rendering: the registry and every canvas are as before, and only the
    capture camera has changed. *)
Theorem generateTexture_without_context {env : Collaborators}
    (key : TextureKey) (width height : option float) (w : World)
    (g : Graphics) :
  key = KeyOther
  \/ (exists (k : string) (t : Texture),
        key = KeyString k /\ textures w !! k = Some t
        /\ sourceImage t = HTMLImageElement) ->
  generateTexture key width height (w, g)
  = Normal
      (set_TargetCamera
         (mkCamera 0 0 (default (config_width w) width)
            (default (config_height w) height) (x g) (y g)) w,
       g).
Proof.
  intros [-> | (k & t & -> & Hk & Hsrc)].
  - reflexivity.
  - unfold generateTexture, resolve_target. simpl. by rewrite Hk, Hsrc.
Qed.

Lemma generateTexture_without_context_witness :
  (KeyString "photo" = KeyOther
   \/ exists (k : string) (t : @Texture recording),
        KeyString "photo" = KeyString k /\ textures gl_world !! k = Some t
        /\ sourceImage t = HTMLImageElement)
  /\ generateTexture (KeyString "photo") None (Some 64%float) (gl_world, styled)
     = Normal (set_TargetCamera (mkCamera 0 0 800 64 0 0) gl_world, styled).
Proof.
  assert (H : KeyString "photo" = KeyOther
              \/ exists (k : string) (t : @Texture recording),
                   KeyString "photo" = KeyString k
                   /\ textures gl_world !! k = Some t
                   /\ sourceImage t = HTMLImageElement).
  { right. exists "photo", (mkTexture HTMLImageElement None).
    split; [reflexivity|]. split; reflexivity. }
  split; [exact H|].
  exact (generateTexture_without_context (env := recording)
           (KeyString "photo") None (Some 64%float) gl_world styled H).
Defined.

(** X15. A canvas given as key is drawn to and never uploaded. With a
    canvas as key, [generateTexture] completes, replays the drawable once
    through the capture camera into that canvas, and leaves the texture
    registry untouched, in WebGL mode too. *)
Theorem generateTexture_to_canvas {env : Collaborators} (canvas : nat)
    (width height : option float) (w : World) (g : Graphics) :
  let camera :=
    mkCamera 0 0 (default (config_width w) width)
      (default (config_height w) height) (x g) (y g) in
  exists w' : World,
    generateTexture (KeyCanvas canvas) width height (w, g) = Normal (w', g)
    /\ textures w' = textures w
    /\ canvases w' = alter (renderCanvas g camera) canvas (canvases w)
    /\ forall px : Pixels,
         canvases w !! canvas = Some px ->
         canvases w' !! canvas = Some (renderCanvas g camera px).
Proof.
  cbv zeta. unfold generateTexture, resolve_target, capture. simpl.
  eexists. split; [reflexivity|].
  destruct (renderer_gl w); simpl;
    (split; [done|]; split; [done|]);
    intros px Hpx; by rewrite lookup_alter_eq, Hpx.
Qed.

(** X16. A registered canvas texture is reused. When the key names a
    texture whose source image is a canvas, [generateTexture] completes
    whatever the canvas pool would do, allocates nothing, and replays the
    drawable once into that canvas. In canvas mode the registry is
    untouched; in WebGL mode the only change is the GPU texture of that
    entry, uploaded from the raster just drawn. *)
Theorem generateTexture_reuses_registered_canvas {env : Collaborators}
    (k : string) (t : Texture) (canvas : nat) (width height : option float)
    (w : World) (g : Graphics) :
  textures w !! k = Some t ->
  sourceImage t = HTMLCanvasElement canvas ->
  let camera :=
    mkCamera 0 0 (default (config_width w) width)
      (default (config_height w) height) (x g) (y g) in
  exists w' : World,
    generateTexture (KeyString k) width height (w, g) = Normal (w', g)
    /\ canvases w' = alter (renderCanvas g camera) canvas (canvases w)
    /\ dom (canvases w') = dom (canvases w)
    /\ dom (textures w') = dom (textures w)
    /\ (renderer_gl w = false -> textures w' = textures w)
    /\ (forall px : Pixels,
         renderer_gl w = true ->
         canvases w !! canvas = Some px ->
         textures w'
         = <[k := mkTexture (HTMLCanvasElement canvas)
                    (Some (canvasToTexture (renderCanvas g camera px)
                             (glTexture t)))]> (textures w)).
Proof.
  intros Hk Hsrc. cbv zeta.
  unfold generateTexture, resolve_target, capture. simpl.
  rewrite Hk, Hsrc. simpl.
  eexists. split; [reflexivity|].
  destruct (renderer_gl w) eqn:Hgl; simpl.
  - rewrite lookup_alter_eq.
    destruct (canvases w !! canvas) as [px|] eqn:Hpx; simpl.
    + split; [done|]. split; [by rewrite dom_alter_L|].
      split.
      { rewrite dom_insert_L. apply (elem_of_dom_2 (D := gset string)) in Hk.
        by apply subseteq_union_1_L, singleton_subseteq_l. }
      split; [done|]. by intros px' _ [= <-].
    + split; [done|]. split; [by rewrite dom_alter_L|].
      split; [done|]. split; [done|]. intros px' _ Hnone. discriminate Hnone.
  - split; [done|]. split; [by rewrite dom_alter_L|].
    split; [done|]. split; [done|]. intros px' Hgl'. discriminate Hgl'.
Qed.

Lemma generateTexture_reuses_registered_canvas_witness :
  textures gl_world !! "sheet" = Some (mkTexture (HTMLCanvasElement 0) None)
  /\ sourceImage (mkTexture (env := recording) (HTMLCanvasElement 0) None)
     = HTMLCanvasElement 0
  /\ exists w' : @World recording,
       generateTexture (KeyString "sheet") None None (gl_world, styled)
         = Normal (w', styled)
       /\ canvases w'
          = alter (renderCanvas styled (mkCamera 0 0 800 600 0 0)) 0
              (canvases gl_world).
Proof.
  split; [reflexivity|]. split; [reflexivity|].
  destruct (generateTexture_reuses_registered_canvas (env := recording)
              "sheet" (mkTexture (HTMLCanvasElement 0) None) 0 None None
              gl_world styled eq_refl eq_refl) as (w' & Hrun & Hcanvases & _).
  exists w'. split; [exact Hrun | exact Hcanvases].
Defined.

(** ** Construction and the cached line width *)

Lemma lineWidth_Graphics_new (ox oy : option float) (ls : GraphicsLineStyle.t)
    (fs : option GraphicsFillStyle.t) :
  _lineWidth (Graphics_new (GraphicsOptions.mk ox oy (Some ls) fs))
  = GetValue (GraphicsLineStyle.width ls) 1%float.
Proof. by destruct fs. Qed.

(** X17. A line style given at construction sets the cached line width. On
    an object built with a line style, and through any calls that do not
    reach [lineStyle], [strokeRect] widens its top and bottom edges by half
    the configured width, or by 0.5 when the line style gives no width;
    the default stroke width is that same width. *)
Theorem strokeRect_after_construction {env : Collaborators}
    (ox oy : option float) (ls : GraphicsLineStyle.t)
    (fs : option GraphicsFillStyle.t) (cs : list call) (w : World)
    (x y width height : float) :
  forallb (fun c => negb (reaches_lineStyle c)) cs = true ->
  let built := Graphics_new (GraphicsOptions.mk ox oy (Some ls) fs) in
  let g' := (state_of (run cs (w, built))).2 in
  let configured := GetValue (GraphicsLineStyle.width ls) 1%float in
  strokeRect x y width height g'
    = push (flatten (rect_outline (configured / 2) x y width height)) g'
  /\ defaultStrokeWidth built = configured
  /\ (GraphicsLineStyle.width ls = None ->
      strokeRect x y width height g'
        = push (flatten (rect_outline 0.5 x y width height)) g').
Proof.
  intros Hcs. cbv zeta.
  assert (Hrect :
    strokeRect x y width height
      (state_of (run cs (w, Graphics_new (GraphicsOptions.mk ox oy (Some ls) fs)))).2
    = push
        (flatten
           (rect_outline (GetValue (GraphicsLineStyle.width ls) 1%float / 2)
              x y width height))
        (state_of (run cs (w, Graphics_new (GraphicsOptions.mk ox oy (Some ls) fs)))).2).
  { rewrite strokeRect_outline, run_lineWidth by done.
    by rewrite lineWidth_Graphics_new. }
  split; [exact Hrect|]. split; [by destruct fs|].
  intros Hwidth. rewrite Hrect. by rewrite Hwidth.
Qed.

Lemma strokeRect_after_construction_witness :
  forallb (fun c => negb (reaches_lineStyle c)) drawing_script = true
  /\ strokeRect 0 0 10 10
       (state_of (run (env := recording) drawing_script (blank_world, styled))).2
     = push (flatten (rect_outline 1 0 0 10 10))
         (state_of (run (env := recording) drawing_script (blank_world, styled))).2.
Proof.
  split; [reflexivity|].
  exact (proj1 (strokeRect_after_construction (env := recording) None None
                  (GraphicsLineStyle.mk (Some 2%float) (Some 0xff0000%float)
                     (Some 0.5%float))
                  (Some (GraphicsFillStyle.mk (Some 0x00ff00%float) None))
                  drawing_script blank_world 0 0 10 10 eq_refl)).
Defined.
